(** * sveltefire: Firestore stores over Svelte's store contract

    A shallow embedding of [src/lib/stores/firestore.ts] (the stores that
    read the Firestore instance from the Firebase context) and of the
    variant of the same module whose functions take the Firestore instance
    as their first argument, together with [getDocValue] and
    [getCollectionValue].

    The two libraries the module is glue for are not part of it:
    - the Firebase SDK is an interface ([Firebase]): its types are opaque
      and [doc] and [collection] are arbitrary functions that may throw;
      [onSnapshot] adds a listener to the table of the [world] and
      returns at once, and snapshots arrive later, as steps of their own,
      at listeners that are still registered;
    - [svelte/store]'s [writable] is the closure state of each store
      ([store_state]) with its [subscribe] and [set]; [derived] is the
      pair of its source store and its callback.

    Nor are [./sdk.js] and [./auth.js]: what
    [const { firestore } = getFirebaseContext()] finds is the [context]
    of the [world], a context object with or without an instance or an
    exception, and [userStore] is an argument of [userDataStore].

    Stores are subscribed with callbacks that do not call back into a
    store: an observer, whose calls are recorded, or the assignment to a
    variable. *)

From stdpp Require Import base option list strings gmap.
From Stdlib Require Import ZArith.

Open Scope string_scope.
Open Scope list_scope.
Set Warnings "-register-all".

(** ** The Firebase SDK, as the module imports it *)

Inductive exn :=
| FirebaseError (message : string)
| TypeError (message : string).

Inductive outcome (A : Type) :=
| Ok (a : A)
| Throw (e : exn).
Arguments Ok {A} a.
Arguments Throw {A} e.

Class Firebase := {
  Firestore : Type;
  DocumentReference : Type;
  (** [Query | CollectionReference]: a collection reference is a query. *)
  Query : Type;
  doc : Firestore -> string -> outcome DocumentReference;
  collection : Firestore -> string -> outcome Query;
  (** the [id] getter of a document reference *)
  ref_id : DocumentReference -> string;
}.

Section Model.
Context `{SDK : Firebase}.

(** ** JavaScript values

    Numbers are the integers; objects are finite maps from property names
    to values (the order of the properties is not observed here). *)

Inductive value :=
| VUndefined
| VNull
| VBool (b : bool)
| VNum (n : Z)
| VStr (s : string)
| VRef (r : DocumentReference)
| VArr (items : list value)
| VObj (props : gmap string value).

(** [a ?? b] *)
Definition nullish (a b : value) : value :=
  match a with
  | VUndefined | VNull => b
  | _ => a
  end.

(** [a === b] on primitives; objects are compared by identity, which
    [safe_not_equal] never needs. *)
Definition strict_equal_primitive (a b : value) : bool :=
  match a, b with
  | VUndefined, VUndefined => true
  | VNull, VNull => true
  | VBool x, VBool y => bool_decide (x = y)
  | VNum x, VNum y => bool_decide (x = y)
  | VStr x, VStr y => bool_decide (x = y)
  | _, _ => false
  end.

(** [a && typeof a === 'object'] *)
Definition is_object (a : value) : bool :=
  match a with
  | VRef _ | VArr _ | VObj _ => true
  | _ => false
  end.

(** svelte's [safe_not_equal(a, b)]:
    [a != a ? b == b : a !== b || (a && typeof a === 'object') || typeof a === 'function'].
    There is no NaN and no function among the values. *)
Definition safe_not_equal (a b : value) : bool :=
  negb (strict_equal_primitive a b) || is_object a.

(** [{ ...base, ...src }]: the properties of [src] win. *)
Definition spread (base src : gmap string value) : gmap string value :=
  src ∪ base.

(** A parameter with a default: [x = d] in a parameter list. *)
Definition default_param (x d : value) : value :=
  match x with
  | VUndefined => d
  | _ => x
  end.

(** ** Snapshots *)

Record DocumentSnapshot := {
  (** [snapshot.data()]: [undefined] when the document does not exist *)
  ds_data : value;
}.

Record QueryDocumentSnapshot := {
  qds_id : string;
  qds_ref : DocumentReference;
  (** [s.data()]: a [DocumentData] object *)
  qds_data : gmap string value;
}.

Record QuerySnapshot := {
  docs : list QueryDocumentSnapshot;
}.

(** ** The world: globals, the SDK's listeners, svelte's stores *)

(** What a store can be subscribed with: a subscriber of the application,
    which records what it receives, or [(val) => (value = val)]. *)
Inductive callback :=
| Observer (o : nat)
| Assign (cell : nat).

(** The second argument of [writable]. *)
Inductive notifier :=
| noop
| DocStart (docRef : DocumentReference)
| ColStart (colRef : Query).

(** What a notifier returns. *)
Inductive stopper :=
| StopNoop
| StopUnsubscribe.

Record store_state := {
  st_value : value;
  (** svelte's [subscribers], in insertion order, each with its identity *)
  st_subscribers : list (nat * callback);
  st_fresh : nat;
  (** svelte's [stop]: [None] for [undefined] and [null] *)
  st_stop : option stopper;
  st_start : notifier;
  (** [let unsubscribe] of the call that made the store *)
  st_unsubscribe : option nat;
}.

(** A call of [onSnapshot(ref, callback)]; the callback sets store [s]. *)
Inductive registration :=
| OnDoc (docRef : DocumentReference) (s : nat)
| OnQuery (colRef : Query) (s : nat).

Record listener := {
  l_registration : registration;
  l_active : bool;
}.

(** A call [run(value)] of observer [em_observer], by store [em_store]
    or, with [None], by the module itself. *)
Record emission := {
  em_store : option nat;
  em_observer : nat;
  em_value : value;
}.

(** What [const { firestore } = getFirebaseContext()] finds.  The function
    is imported from [./sdk.js]; the module calls it and destructures its
    result before anything else.  Either there is a context object, whose
    [firestore] is an instance or is missing ([None] for [undefined] and
    [null]), or the call or the destructuring throws. *)
Inductive firebase_context :=
| Context (firestore : option Firestore)
| NoContext (e : exn).

(** An instance, or its absence, read as a context: the context object
    that holds it. *)
#[warning="-uniform-inheritance"]
Coercion Context : option >-> firebase_context.

Record world := {
  (** [globalThis.window] is truthy *)
  window : bool;
  (** the Firebase context of the calls of [firestore.ts] *)
  context : firebase_context;
  (** the messages of [console.warn], oldest first *)
  console : list string;
  stores : list store_state;
  (** every registration made so far; the index is the listener *)
  listeners : list listener;
  (** the variables declared by [let value] *)
  cells : list value;
  (** the calls of the observers, oldest first *)
  received : list emission;
}.

Definition target (r : registration) : nat :=
  match r with
  | OnDoc _ s | OnQuery _ s => s
  end.

Definition set_console (c : list string) (w : world) : world :=
  {| window := window w; context := context w; console := c;
     stores := stores w; listeners := listeners w; cells := cells w;
     received := received w |}.

Definition set_stores (l : list store_state) (w : world) : world :=
  {| window := window w; context := context w; console := console w;
     stores := l; listeners := listeners w; cells := cells w;
     received := received w |}.

Definition set_listeners (l : list listener) (w : world) : world :=
  {| window := window w; context := context w; console := console w;
     stores := stores w; listeners := l; cells := cells w;
     received := received w |}.

Definition set_cells (l : list value) (w : world) : world :=
  {| window := window w; context := context w; console := console w;
     stores := stores w; listeners := listeners w; cells := l;
     received := received w |}.

Definition set_received (l : list emission) (w : world) : world :=
  {| window := window w; context := context w; console := console w;
     stores := stores w; listeners := listeners w; cells := cells w;
     received := l |}.

(** ** Effects: state and exceptions *)

Definition M (A : Type) : Type := world -> outcome (A * world).

Definition ret {A} (a : A) : M A := fun w => Ok (a, w).

Definition bind {A B} (m : M A) (k : A -> M B) : M B :=
  fun w =>
    match m w with
    | Ok (a, w') => k a w'
    | Throw e => Throw e
    end.

Definition throw {A} (e : exn) : M A := fun _ => Throw e.

Definition lift {A} (o : outcome A) : M A :=
  fun w =>
    match o with
    | Ok a => Ok (a, w)
    | Throw e => Throw e
    end.

Definition gets {A} (f : world -> A) : M A := fun w => Ok (f w, w).

Definition modify (f : world -> world) : M unit := fun w => Ok (tt, f w).

End Model.

Declare Scope js_scope.
Delimit Scope js_scope with js.
Notation "'let*' x ':=' m 'in' k" := (bind m (fun x => k))
  (at level 10, x name, m at level 100, k at level 200) : js_scope.
Notation "m ';>' k" := (bind m (fun _ => k))
  (at level 100, k at level 200, right associativity) : js_scope.

Section Stores.
Context `{SDK : Firebase}.
Local Open Scope js_scope.

(** ** svelte/store: [writable] *)

Definition with_store (s : nat) (f : store_state -> store_state) (w : world) : world :=
  set_stores (alter f s (stores w)) w.

Definition get_store (s : nat) : M store_state :=
  fun w =>
    match stores w !! s with
    | Some st => Ok (st, w)
    | None => Throw (TypeError "not a store")
    end.

Definition set_value (v : value) (st : store_state) : store_state :=
  {| st_value := v;
     st_subscribers := st_subscribers st;
     st_fresh := st_fresh st;
     st_stop := st_stop st;
     st_start := st_start st;
     st_unsubscribe := st_unsubscribe st |}.

Definition set_subscribers (l : list (nat * callback)) (fresh : nat)
    (st : store_state) : store_state :=
  {| st_value := st_value st;
     st_subscribers := l;
     st_fresh := fresh;
     st_stop := st_stop st;
     st_start := st_start st;
     st_unsubscribe := st_unsubscribe st |}.

Definition set_stop (stop : option stopper) (st : store_state) : store_state :=
  {| st_value := st_value st;
     st_subscribers := st_subscribers st;
     st_fresh := st_fresh st;
     st_stop := stop;
     st_start := st_start st;
     st_unsubscribe := st_unsubscribe st |}.

Definition set_unsubscribe (l : nat) (st : store_state) : store_state :=
  {| st_value := st_value st;
     st_subscribers := st_subscribers st;
     st_fresh := st_fresh st;
     st_stop := st_stop st;
     st_start := st_start st;
     st_unsubscribe := Some l |}.

Definition fresh_store (v : value) (start : notifier) : store_state :=
  {| st_value := v; st_subscribers := []; st_fresh := 0;
     st_stop := None; st_start := start; st_unsubscribe := None |}.

(** [writable(value, start)]: a new store; the module keeps only its
    [subscribe], which is the store's index here. *)
Definition writable (v : value) (start : notifier) : M nat :=
  fun w =>
    Ok (length (stores w), set_stores (stores w ++ [fresh_store v start]) w).

(** A call [cb(v)], made by [caller]. *)
Definition called (caller : option nat) (cb : callback) (v : value)
    (w : world) : world :=
  match cb with
  | Observer o =>
      set_received (received w ++
        [ {| em_store := caller; em_observer := o; em_value := v |} ]) w
  | Assign c => set_cells (<[c := v]> (cells w)) w
  end.

Definition call (caller : option nat) (cb : callback) (v : value) : M unit :=
  modify (called caller cb v).

(** Store [s] calls a subscriber: [run(v)]. *)
Definition run_callback (s : nat) (cb : callback) (v : value) : M unit :=
  call (Some s) cb v.

Fixpoint run_all (s : nat) (l : list (nat * callback)) (v : value) : M unit :=
  match l with
  | [] => ret tt
  | (_, cb) :: l' => run_callback s cb v ;> run_all s l' v
  end.

(** [set(new_value)] of store [s]. The subscribers here never set a
    store, so svelte's [subscriber_queue] is empty on entry and is run by
    this call: every subscriber is called with the new value, in order. *)
Definition store_set (s : nat) (new_value : value) : M unit :=
  let* st := get_store s in
  if safe_not_equal (st_value st) new_value then
    modify (with_store s (set_value new_value)) ;>
    match st_stop st with
    | Some _ => run_all s (st_subscribers st) new_value
    | None => ret tt
    end
  else ret tt.

(** ** firebase/firestore: [onSnapshot] and its unsubscribe function *)

(** [onSnapshot(ref, callback)] registers a listener and returns its
    unsubscribe function, named by the listener's index. Snapshots arrive
    later, see [deliver_doc] and [deliver_query]. *)
Definition onSnapshot (r : registration) : M nat :=
  fun w =>
    Ok (length (listeners w),
        set_listeners (listeners w ++
          [ {| l_registration := r; l_active := true |} ]) w).

Definition deactivate (l : listener) : listener :=
  {| l_registration := l_registration l; l_active := false |}.

(** The function [onSnapshot] returned: it removes the listener. *)
Definition vendor_unsubscribe (l : nat) : M unit :=
  modify (fun w => set_listeners (alter deactivate l (listeners w)) w).

(** [{ id: s.id, ref: s.ref, ...s.data() }] *)
Definition record_of (s : QueryDocumentSnapshot) : value :=
  VObj (spread (<["ref" := VRef (qds_ref s)]> (<["id" := VStr (qds_id s)]> ∅))
               (qds_data s)).

(** The callback given to [onSnapshot] by [docStore]:
    [(snapshot) => { set((snapshot.data() as T) ?? null); }] *)
Definition doc_callback (s : nat) (snapshot : DocumentSnapshot) : M unit :=
  store_set s (nullish (ds_data snapshot) VNull).

(** The callback given to [onSnapshot] by [collectionStore]. *)
Definition collection_callback (s : nat) (snapshot : QuerySnapshot) : M unit :=
  let data := VArr (map record_of (docs snapshot)) in
  store_set s data.

(** The SDK delivers a snapshot to a listener that is still registered. *)
Definition deliver_doc (l : nat) (snapshot : DocumentSnapshot) : M unit :=
  fun w =>
    match listeners w !! l with
    | Some {| l_registration := OnDoc _ s; l_active := true |} =>
        doc_callback s snapshot w
    | _ => Ok (tt, w)
    end.

Definition deliver_query (l : nat) (snapshot : QuerySnapshot) : M unit :=
  fun w =>
    match listeners w !! l with
    | Some {| l_registration := OnQuery _ s; l_active := true |} =>
        collection_callback s snapshot w
    | _ => Ok (tt, w)
    end.

(** ** svelte/store: [subscribe] and the function it returns *)

(** The notifier of store [s], called with the store's [set]:
    [stop = start(set, update) || noop]. *)
Definition start (s : nat) (n : notifier) : M stopper :=
  match n with
  | noop => ret StopNoop
  | DocStart docRef =>
      let* l := onSnapshot (OnDoc docRef s) in
      modify (with_store s (set_unsubscribe l)) ;>
      ret StopUnsubscribe
  | ColStart colRef =>
      let* l := onSnapshot (OnQuery colRef s) in
      modify (with_store s (set_unsubscribe l)) ;>
      ret StopUnsubscribe
  end.

(** [() => unsubscribe()] reads the variable when it is called. *)
Definition run_stop (s : nat) (stop : stopper) : M unit :=
  match stop with
  | StopNoop => ret tt
  | StopUnsubscribe =>
      let* st := get_store s in
      match st_unsubscribe st with
      | Some l => vendor_unsubscribe l
      | None => throw (TypeError "unsubscribe is not a function")
      end
  end.

(** [subscribe(run)]: returns the unsubscriber, named by the store and
    the subscriber's identity. *)
Definition subscribe (s : nat) (run : callback) : M (nat * nat) :=
  let* st := get_store s in
  let id := st_fresh st in
  let subscribers := st_subscribers st ++ [(id, run)] in
  modify (with_store s (set_subscribers subscribers (S id))) ;>
  (if bool_decide (length subscribers = 1) then
     let* stop := start s (st_start st) in
     modify (with_store s (set_stop (Some stop)))
   else ret tt) ;>
  let* st' := get_store s in
  run_callback s run (st_value st') ;>
  ret (s, id).

Definition unsubscribe (u : nat * nat) : M unit :=
  let '(s, id) := u in
  let* st := get_store s in
  let subscribers := filter (fun p => p.1 ≠ id) (st_subscribers st) in
  modify (with_store s (set_subscribers subscribers (st_fresh st))) ;>
  match subscribers, st_stop st with
  | [], Some stop =>
      run_stop s stop ;>
      modify (with_store s (set_stop None))
  | _, _ => ret tt
  end.

End Stores.

(** ** The stores of the module *)

Section Interfaces.
Context `{SDK : Firebase}.

(** [interface DocStore<T>]; [subscribe] is the store it belongs to. *)
Record DocStore := {
  doc_subscribe : nat;
  doc_ref : option DocumentReference;
  doc_id : string;
}.

(** [interface CollectionStore<T>] *)
Record CollectionStore := {
  col_subscribe : nat;
  col_ref : option Query;
}.

(** [console.warn(message)] *)
Definition console_warn (message : string) : M unit :=
  modify (fun w => set_console (console w ++ [message]) w).

Definition not_initialized : string :=
  "Firestore is not initialized. Are you missing FirebaseApp as a parent component?".

(** [let value;]: a fresh variable, [undefined] until it is assigned. *)
Definition declare : M nat :=
  fun w => Ok (length (cells w), set_cells (cells w ++ [VUndefined]) w).

(** Reading the variable. *)
Definition read (c : nat) : M value :=
  gets (fun w => default VUndefined (cells w !! c)).

End Interfaces.

(** *** The variant whose functions take the Firestore instance *)

Module Explicit.
Section Explicit.
Context `{SDK : Firebase}.
Local Open Scope js_scope.

Definition docStore (firestore : option Firestore)
    (ref : string + DocumentReference) (startWith : value) : M DocStore :=
  let* has_window := gets window in
  (* Fallback for SSR *)
  if negb has_window then
    let* subscribe := writable startWith noop in
    ret {| doc_subscribe := subscribe; doc_ref := None; doc_id := "" |}
  else
  (* Fallback for missing SDK *)
  match firestore with
  | None =>
      console_warn not_initialized ;>
      let* subscribe := writable VNull noop in
      ret {| doc_subscribe := subscribe; doc_ref := None; doc_id := "" |}
  | Some firestore =>
      let* docRef :=
        match ref with
        | inl path => lift (doc firestore path)
        | inr ref => ret ref
        end in
      let* subscribe := writable startWith (DocStart docRef) in
      ret {| doc_subscribe := subscribe; doc_ref := Some docRef;
             doc_id := ref_id docRef |}
  end.

Definition collectionStore (firestore : option Firestore)
    (ref : string + Query) (startWith : value) : M CollectionStore :=
  let startWith := default_param startWith VUndefined in
  let* has_window := gets window in
  (* Fallback for SSR *)
  if negb has_window then
    let* subscribe := writable startWith noop in
    ret {| col_subscribe := subscribe; col_ref := None |}
  else
  (* Fallback for missing SDK *)
  match firestore with
  | None =>
      console_warn not_initialized ;>
      let* subscribe := writable (VArr []) noop in
      ret {| col_subscribe := subscribe; col_ref := None |}
  | Some firestore =>
      let* colRef :=
        match ref with
        | inl path => lift (collection firestore path)
        | inr ref => ret ref
        end in
      let* subscribe := writable startWith (ColStart colRef) in
      ret {| col_subscribe := subscribe; col_ref := Some colRef |}
  end.

Definition getCollectionValue (firestore : option Firestore)
    (ref : string + Query) (startWith : value) : M value :=
  let startWith := default_param startWith VUndefined in
  let* store := collectionStore firestore ref startWith in
  let* value := declare in
  let* unsubscriber := subscribe (col_subscribe store) (Assign value) in
  unsubscribe unsubscriber ;>
  read value.

Definition getDocValue (firestore : option Firestore)
    (ref : string + DocumentReference) (startWith : value) : M value :=
  let* store := docStore firestore ref startWith in
  let* value := declare in
  let* unsubscriber := subscribe (doc_subscribe store) (Assign value) in
  unsubscribe unsubscriber ;>
  read value.

End Explicit.
End Explicit.

(** *** [src/lib/stores/firestore.ts] *)

Section FromContext.
Context `{SDK : Firebase}.
Local Open Scope js_scope.

(** [const { firestore } = getFirebaseContext()].  [getFirebaseContext] of
    [./sdk.js] is not part of the module: what the call and the
    destructuring give is the [context] of the world, a parameter of every
    statement about [firestore.ts].  With a context object the binding is
    its [firestore]; without one the exception leaves [docStore] and
    [collectionStore], which have no handler. *)
Definition getFirebaseContext : M (option Firestore) :=
  fun w =>
    match context w with
    | Context firestore => Ok (firestore, w)
    | NoContext e => Throw e
    end.

Definition docStore (ref : string + DocumentReference) (startWith : value)
    : M DocStore :=
  let* firestore := getFirebaseContext in
  let* has_window := gets window in
  (* Fallback for SSR *)
  if negb has_window then
    let* subscribe := writable startWith noop in
    ret {| doc_subscribe := subscribe; doc_ref := None; doc_id := "" |}
  else
  (* Fallback for missing SDK *)
  match firestore with
  | None =>
      console_warn not_initialized ;>
      let* subscribe := writable VNull noop in
      ret {| doc_subscribe := subscribe; doc_ref := None; doc_id := "" |}
  | Some firestore =>
      let* docRef :=
        match ref with
        | inl path => lift (doc firestore path)
        | inr ref => ret ref
        end in
      let* subscribe := writable startWith (DocStart docRef) in
      ret {| doc_subscribe := subscribe; doc_ref := Some docRef;
             doc_id := ref_id docRef |}
  end.

Definition collectionStore (ref : string + Query) (startWith : value)
    : M CollectionStore :=
  let startWith := default_param startWith (VArr []) in
  let* firestore := getFirebaseContext in
  let* has_window := gets window in
  (* Fallback for SSR *)
  if negb has_window then
    let* subscribe := writable startWith noop in
    ret {| col_subscribe := subscribe; col_ref := None |}
  else
  (* Fallback for missing SDK *)
  match firestore with
  | None =>
      console_warn not_initialized ;>
      let* subscribe := writable (VArr []) noop in
      ret {| col_subscribe := subscribe; col_ref := None |}
  | Some firestore =>
      let* colRef :=
        match ref with
        | inl path => lift (collection firestore path)
        | inr ref => ret ref
        end in
      let* subscribe := writable startWith (ColStart colRef) in
      ret {| col_subscribe := subscribe; col_ref := Some colRef |}
  end.

(** A signed-in user, as far as the module reads it. *)
Record User := {
  uid : string;
}.

(** [derived(store, fn)] with a callback of two parameters: svelte calls
    [fn] with each value of [store] and the [set] of the derived store,
    after the clean-up function the previous call returned. *)
Record Derived (S : Type) := {
  derived_from : S;
  derived_fn : option User -> callback -> M (option (nat * nat));
}.
Arguments derived_from {S} d.
Arguments derived_fn {S} d.

Definition derived {S : Type} (store : S)
    (fn : option User -> callback -> M (option (nat * nat))) : Derived S :=
  {| derived_from := store; derived_fn := fn |}.

(** [userStore] of [./auth.js] is not part of the module: it is the
    parameter [userStore], a store of [User | null]. *)
Definition userDataStore {S : Type} (userStore : M S)
    (collectionPath : option string) : M (Derived S) :=
  let collectionPath := default "users" collectionPath in
  let* user := userStore in
  ret (derived user (fun user' set =>
    match user' with
    | None => call None set VNull ;> ret None
    | Some user' =>
        let fullPath := collectionPath +:+ "/" +:+ uid user' in
        let* store := docStore (inl fullPath) VUndefined in
        let* unsubscriber := subscribe (doc_subscribe store) set in
        ret (Some unsubscriber)
    end)).

End FromContext.
Arguments derived_from {SDK S} d.
Arguments derived_fn {SDK S} d.

(** ** What the application, svelte and the SDK can do *)

Section Machine.
Context `{SDK : Firebase}.
Local Open Scope js_scope.

Inductive action :=
| CallDocStore (ref : string + DocumentReference) (startWith : value)
| CallCollectionStore (ref : string + Query) (startWith : value)
| CallExplicitDocStore (firestore : option Firestore)
    (ref : string + DocumentReference) (startWith : value)
| CallExplicitCollectionStore (firestore : option Firestore)
    (ref : string + Query) (startWith : value)
| LetValue
(** a call [cb(v)] that no store makes *)
| Call (cb : callback) (v : value)
| Subscribe (s : nat) (run : callback)
| Unsubscribe (u : nat * nat)
| DeliverDoc (l : nat) (snapshot : DocumentSnapshot)
| DeliverQuery (l : nat) (snapshot : QuerySnapshot).

Definition ignore {A} (m : M A) : M unit := m ;> ret tt.

Definition step (a : action) : M unit :=
  match a with
  | CallDocStore ref startWith => ignore (docStore ref startWith)
  | CallCollectionStore ref startWith => ignore (collectionStore ref startWith)
  | CallExplicitDocStore firestore ref startWith =>
      ignore (Explicit.docStore firestore ref startWith)
  | CallExplicitCollectionStore firestore ref startWith =>
      ignore (Explicit.collectionStore firestore ref startWith)
  | LetValue => ignore declare
  | Call cb v => call None cb v
  | Subscribe s run => ignore (subscribe s run)
  | Unsubscribe u => unsubscribe u
  | DeliverDoc l snapshot => deliver_doc l snapshot
  | DeliverQuery l snapshot => deliver_query l snapshot
  end.

Fixpoint run (acts : list action) : M unit :=
  match acts with
  | [] => ret tt
  | a :: acts' => step a ;> run acts'
  end.

(** Before the module is used there is no store and no listener, and no
    observer has been called. *)
Definition initial (w : world) : Prop :=
  stores w = [] /\ listeners w = [] /\ received w = [].

Inductive reachable : world -> Prop :=
| reachable_initial w : initial w -> reachable w
| reachable_step w a w' : reachable w -> step a w = Ok (tt, w') -> reachable w'.

(** *** The invariant *)

Definition registered_for (r : registration) (st : store_state) : Prop :=
  match r with
  | OnDoc docRef _ => st_start st = DocStart docRef
  | OnQuery colRef _ => st_start st = ColStart colRef
  end.

Definition registration_of (s : nat) (n : notifier) : option registration :=
  match n with
  | noop => None
  | DocStart docRef => Some (OnDoc docRef s)
  | ColStart colRef => Some (OnQuery colRef s)
  end.

(** A store is started exactly while it has subscribers, and a started
    store of [docStore] or [collectionStore] holds the unsubscribe
    function of a listener that is registered for it. *)
Definition store_ok (w : world) (s : nat) (st : store_state) : Prop :=
  (st_stop st = None <-> st_subscribers st = []) /\
  match st_stop st with
  | None => True
  | Some stop =>
      match registration_of s (st_start st) with
      | None => stop = StopNoop
      | Some r =>
          stop = StopUnsubscribe /\
          exists l, st_unsubscribe st = Some l /\
            listeners w !! l = Some {| l_registration := r; l_active := true |}
      end
  end.

(** A listener was registered by the notifier of its store, and while it
    is registered the store is started and holds its unsubscribe
    function. *)
Definition listener_ok (w : world) (l : nat) (li : listener) : Prop :=
  exists st,
    stores w !! target (l_registration li) = Some st /\
    registered_for (l_registration li) st /\
    (l_active li = true ->
       st_stop st = Some StopUnsubscribe /\ st_unsubscribe st = Some l).

Record wf (w : world) : Prop := {
  wf_stores : forall s st, stores w !! s = Some st -> store_ok w s st;
  wf_listeners : forall l li, listeners w !! l = Some li -> listener_ok w l li;
}.

(** What store [s] called observers with. *)
Definition emitted (s : nat) (w : world) : list value :=
  em_value <$> filter (fun e => em_store e = Some s) (received w).

(** *** The transitions of a store, as functions *)

Definition notified (s : nat) (l : list (nat * callback)) (v : value)
    (w : world) : world :=
  foldl (fun w p => called (Some s) p.2 v w) w l.

(** The world after [set(v)] of store [s]. *)
Definition set_to (s : nat) (v : value) (st : store_state) (w : world) : world :=
  if safe_not_equal (st_value st) v then
    let w' := set_stores (<[s := set_value v st]> (stores w)) w in
    match st_stop st with
    | Some _ => notified s (st_subscribers st) v w'
    | None => w'
    end
  else w.

(** The store and the listeners after [subscribe(run)]. *)
Definition first_stop (s : nat) (st : store_state) : stopper :=
  match registration_of s (st_start st) with
  | None => StopNoop
  | Some _ => StopUnsubscribe
  end.

Definition subscribed (s : nat) (run : callback) (n : nat)
    (st : store_state) : store_state :=
  {| st_value := st_value st;
     st_subscribers := st_subscribers st ++ [(st_fresh st, run)];
     st_fresh := S (st_fresh st);
     st_stop := match st_subscribers st with
                | [] => Some (first_stop s st)
                | _ => st_stop st
                end;
     st_start := st_start st;
     st_unsubscribe := match st_subscribers st, registration_of s (st_start st) with
                       | [], Some _ => Some n
                       | _, _ => st_unsubscribe st
                       end |}.

Definition registered (s : nat) (st : store_state) : list listener :=
  match st_subscribers st, registration_of s (st_start st) with
  | [], Some r => [ {| l_registration := r; l_active := true |} ]
  | _, _ => []
  end.

(** The store and the listeners after the unsubscriber of [id]. *)
Definition remaining (id : nat) (st : store_state) : list (nat * callback) :=
  filter (fun p => p.1 ≠ id) (st_subscribers st).

Definition unsubscribed (id : nat) (st : store_state) : store_state :=
  {| st_value := st_value st;
     st_subscribers := remaining id st;
     st_fresh := st_fresh st;
     st_stop := match remaining id st with
                | [] => None
                | _ => st_stop st
                end;
     st_start := st_start st;
     st_unsubscribe := st_unsubscribe st |}.

Definition cancelled (id : nat) (st : store_state) (ls : list listener)
    : list listener :=
  match remaining id st, st_stop st, st_unsubscribe st with
  | [], Some StopUnsubscribe, Some l => alter deactivate l ls
  | _, _, _ => ls
  end.

(** World [w'] is [w] with one more store, [s], which nobody has
    subscribed to, and possibly more warnings. *)
Definition created (s : nat) (v : value) (n : notifier) (w w' : world) : Prop :=
  s = length (stores w) /\
  stores w' = stores w ++ [fresh_store v n] /\
  listeners w' = listeners w /\
  cells w' = cells w /\
  received w' = received w /\
  window w' = window w /\
  context w' = context w.

(** [m] keeps [P] whenever it returns. *)
Definition preserves {A} (P : world -> Prop) (m : M A) : Prop :=
  forall w a w', P w -> m w = Ok (a, w') -> P w'.

(** The store after one subscriber came and left. *)
Definition visited (s : nat) (n_listeners : nat) (st : store_state) : store_state :=
  {| st_value := st_value st;
     st_subscribers := [];
     st_fresh := 1;
     st_stop := None;
     st_start := st_start st;
     st_unsubscribe := match registration_of s (st_start st) with
                       | Some _ => Some n_listeners
                       | None => None
                       end |}.

Definition visit (s : nat) (st : store_state) : list listener :=
  match registration_of s (st_start st) with
  | Some r => [ {| l_registration := r; l_active := false |} ]
  | None => []
  end.

(** The stores that called the observers exist. *)
Definition tagged (w : world) : Prop :=
  forall e s, e ∈ received w -> em_store e = Some s -> s < length (stores w).

(** What a step that returns has done to a well-formed world. *)
Inductive effect (w : world) : action -> world -> Prop :=
| effect_created a s v n w' :
    created s v n w w' -> effect w a w'
| effect_declare :
    effect w LetValue (set_cells (cells w ++ [VUndefined]) w)
| effect_call cb v :
    effect w (Call cb v) (called None cb v w)
| effect_subscribe s run st :
    stores w !! s = Some st ->
    effect w (Subscribe s run)
      (called (Some s) run (st_value st)
         (set_stores (<[s := subscribed s run (length (listeners w)) st]> (stores w))
            (set_listeners (listeners w ++ registered s st) w)))
| effect_unsubscribe s id st :
    stores w !! s = Some st ->
    effect w (Unsubscribe (s, id))
      (set_stores (<[s := unsubscribed id st]> (stores w))
         (set_listeners (cancelled id st (listeners w)) w))
| effect_doc l docRef s st snapshot :
    listeners w !! l = Some {| l_registration := OnDoc docRef s; l_active := true |} ->
    stores w !! s = Some st ->
    st_start st = DocStart docRef ->
    st_stop st = Some StopUnsubscribe ->
    effect w (DeliverDoc l snapshot)
      (set_to s (nullish (ds_data snapshot) VNull) st w)
| effect_query l colRef s st snapshot :
    listeners w !! l = Some {| l_registration := OnQuery colRef s; l_active := true |} ->
    stores w !! s = Some st ->
    st_start st = ColStart colRef ->
    st_stop st = Some StopUnsubscribe ->
    effect w (DeliverQuery l snapshot)
      (set_to s (VArr (map record_of (docs snapshot))) st w)
| effect_none a :
    effect w a w.

(** The values that are not objects: undefined, null, booleans, numbers
    and strings. *)
Definition primitive (v : value) : Prop :=
  match v with
  | VUndefined | VNull | VBool _ | VNum _ | VStr _ => True
  | VRef _ | VArr _ | VObj _ => False
  end.

(** What observers hear of a call [cb(v)]. *)
Definition heard (caller : option nat) (cb : callback) (v : value) : list emission :=
  match cb with
  | Observer o => [ {| em_store := caller; em_observer := o; em_value := v |} ]
  | Assign _ => []
  end.

(** What the observers among the subscribers of [s] hear of [set(v)]. *)
Definition emissions (s : nat) (l : list (nat * callback)) (v : value) : list emission :=
  l ≫= (fun p => heard (Some s) p.2 v).

(** What [set(v)] of a store makes the observers hear. *)
Definition announced (s : nat) (v : value) (st : store_state) : list emission :=
  if safe_not_equal (st_value st) v then
    match st_stop st with
    | Some _ => emissions s (st_subscribers st) v
    | None => []
    end
  else [].

(** Store [s] has no notifier, holds [v] and never called an observer
    with anything else. *)
Definition settled (s : nat) (v : value) (w : world) : Prop :=
  (exists st, stores w !! s = Some st /\ st_start st = noop /\ st_value st = v) /\
  (forall e, e ∈ received w -> em_store e = Some s -> em_value e = v).

(** A store of a fallback branch: whatever happens next, no listener is
    registered for it, all it calls observers with is [v], and it calls a
    new subscriber with [v]. *)
Definition fallback (s : nat) (v : value) (w : world) : Prop :=
  forall acts w', run acts w = Ok (tt, w') ->
    (forall l li, listeners w' !! l = Some li -> target (l_registration li) <> s) /\
    (forall x, x ∈ emitted s w' -> x = v) /\
    (forall o, exists u w'',
       subscribe s (Observer o) w' = Ok (u, w'') /\
       received w'' = received w' ++
         [ {| em_store := Some s; em_observer := o; em_value := v |} ] /\
       listeners w'' = listeners w').



(** The identities of the subscribers of a store are below the next one
    it gives out. *)
Definition ids_fresh (w : world) : Prop :=
  forall s st p, stores w !! s = Some st -> p ∈ st_subscribers st ->
    p.1 < st_fresh st.

End Machine.

(** ** A small SDK to run the module on: references are paths *)

Definition path_sdk : Firebase := {|
  Firestore := string;
  DocumentReference := string;
  Query := string;
  doc := fun _ path =>
    if bool_decide (path = "") then Throw (FirebaseError "invalid-argument")
    else Ok path;
  collection := fun _ path =>
    if bool_decide (path = "") then Throw (FirebaseError "invalid-argument")
    else Ok path;
  ref_id := fun path => path;
|}.

Definition app : @Firestore path_sdk := "app".

Definition browser : @world path_sdk :=
  @Build_world path_sdk true (Some app) [] [] [] [] [].

Definition server : @world path_sdk :=
  @Build_world path_sdk false (Some app) [] [] [] [] [].

Definition no_app : @world path_sdk :=
  @Build_world path_sdk true None [] [] [] [] [].

(** A call for which there is no context object to destructure. *)
Definition no_context : @world path_sdk :=
  @Build_world path_sdk true
    (NoContext (TypeError "Cannot destructure property 'firestore'"))
    [] [] [] [] [].

Definition user1 : @DocumentReference path_sdk := "users/1".

Definition users : @Query path_sdk := "users".

(** A document of [users]: [{ name: "Ann" }]. *)
Definition ann : @QueryDocumentSnapshot path_sdk :=
  {| qds_id := "1"; qds_ref := user1;
     qds_data := {[ "name" := @VStr path_sdk "Ann" ]} |}.

(** The world after a run, when nothing threw. *)
Definition final (acts : list (@action path_sdk)) (w : @world path_sdk)
    : option (@world path_sdk) :=
  match run acts w with
  | Ok (_, w') => Some w'
  | Throw _ => None
  end.

(** [docStore("users/1")] with one subscriber, in the browser. *)
Definition listening : @world path_sdk :=
  Eval vm_compute in
    default browser
      (final [ CallDocStore (inl "users/1") VUndefined;
               Subscribe 0 (Observer 7) ] browser).

(** [collectionStore("users")] with one subscriber, in the browser. *)
Definition listening_collection : @world path_sdk :=
  Eval vm_compute in
    default browser
      (final [ CallCollectionStore (inl "users") VUndefined;
               Subscribe 0 (Observer 7) ] browser).


(** * Properties *)

Section Theory.
Context `{SDK : Firebase}.
Local Open Scope js_scope.
Arguments subscribe : simpl never.
Arguments unsubscribe : simpl never.
Arguments store_set : simpl never.
Arguments docStore : simpl never.
Arguments collectionStore : simpl never.
Arguments Explicit.docStore : simpl never.
Arguments Explicit.collectionStore : simpl never.

Lemma alter_as_insert {A} (f : A -> A) (l : list A) (i : nat) (x : A) :
  l !! i = Some x -> alter f i l = <[i := f x]> l.
Proof.
  revert i. induction l as [|y l IH]; intros [|i] H; simplify_eq/=; try done.
  f_equal. by apply IH.
Qed.

Lemma run_all_notified s l v w :
  run_all s l v w = Ok (tt, notified s l v w).
Proof.
  revert w. induction l as [|[i cb] l IH]; intros w; [done|].
  simpl. unfold bind, run_callback, call, modify. simpl. apply IH.
Qed.


Lemma world_eq (w1 w2 : world) :
  window w1 = window w2 -> context w1 = context w2 -> console w1 = console w2 ->
  stores w1 = stores w2 -> listeners w1 = listeners w2 -> cells w1 = cells w2 ->
  received w1 = received w2 -> w1 = w2.
Proof. destruct w1, w2; simpl; intros; congruence. Qed.

Lemma ok_eq {A} (a b : A) (w1 w2 : world) :
  a = b -> w1 = w2 -> Ok (a, w1) = Ok (b, w2).
Proof. by intros -> ->. Qed.

Lemma called_fields caller cb v w :
  window (called caller cb v w) = window w /\
  context (called caller cb v w) = context w /\
  console (called caller cb v w) = console w /\
  stores (called caller cb v w) = stores w /\
  listeners (called caller cb v w) = listeners w.
Proof. by destruct cb. Qed.

Lemma subscribe_eq s run w st :
  stores w !! s = Some st ->
  subscribe s run w =
    Ok ((s, st_fresh st),
        called (Some s) run (st_value st)
          (set_stores (<[s := subscribed s run (length (listeners w)) st]> (stores w))
             (set_listeners (listeners w ++ registered s st) w))).
Proof.
  intros Hs. unfold subscribe, bind, get_store at 1. rewrite Hs. simpl.
  assert (Hlt : s < length (stores w)) by by eapply lookup_lt_Some.
  unfold subscribed, registered, first_stop.
  destruct (st_subscribers st) as [|p l] eqn:Hsubs; simpl.
  - destruct (st_start st) eqn:Hstart; simpl;
      unfold get_store, with_store, ret, modify; simpl;
      rewrite ?list_lookup_alter_eq, ?Hs; simpl; rewrite ?Hsubs, ?Hstart; simpl.
      all: apply ok_eq; [done|]; f_equal.
      all: apply world_eq; simpl; rewrite ?app_nil_r; try done.
      all: rewrite ?list_alter_alter_eq; erewrite alter_as_insert by eassumption.
      all: unfold compose, set_stop, set_unsubscribe, set_subscribers; simpl.
      all: by rewrite ?Hstart.
  - rewrite bool_decide_eq_false_2 by (rewrite length_app; simpl; lia).
    unfold get_store, with_store, ret, modify; simpl.
    rewrite list_lookup_alter_eq, Hs. simpl.
    apply ok_eq; [done|]; f_equal. apply world_eq; simpl; rewrite ?app_nil_r; try done.
    erewrite alter_as_insert by eassumption. unfold set_subscribers. simpl.
    by rewrite ?Hsubs, ?Hl, ?Hstop.
Qed.

Lemma unsubscribe_eq s id w st :
  stores w !! s = Some st ->
  (st_stop st = Some StopUnsubscribe -> is_Some (st_unsubscribe st)) ->
  unsubscribe (s, id) w =
    Ok (tt, set_stores (<[s := unsubscribed id st]> (stores w))
              (set_listeners (cancelled id st (listeners w)) w)).
Proof.
  intros Hs Hun. unfold unsubscribe, bind, get_store at 1. rewrite Hs. simpl.
  unfold unsubscribed, cancelled, remaining.
  destruct (filter _ (st_subscribers st)) as [|p l] eqn:Hsubs; simpl.
  - destruct (st_stop st) as [[]|] eqn:Hstop; simpl.
    + unfold ret, modify, with_store. simpl.
      apply ok_eq; [done|]. apply world_eq; simpl; try done.
      rewrite list_alter_alter_eq. erewrite alter_as_insert by eassumption.
      unfold compose, set_stop, set_subscribers. simpl. by rewrite ?Hsubs, ?Hl, ?Hstop.
    + destruct Hun as [l Hl]; [done|]. rewrite Hl.
      unfold get_store, with_store, bind. simpl. rewrite list_lookup_alter_eq, Hs. simpl.
      rewrite Hl. unfold vendor_unsubscribe, modify. simpl.
      apply ok_eq; [done|]. apply world_eq; simpl; try done.
      rewrite list_alter_alter_eq. erewrite alter_as_insert by eassumption.
      unfold compose, set_stop, set_subscribers. simpl. by rewrite ?Hsubs, ?Hl, ?Hstop.
    + unfold ret. apply ok_eq; [done|]. apply world_eq; simpl; try done.
      erewrite alter_as_insert by eassumption.
      unfold set_subscribers. simpl. by rewrite ?Hsubs, ?Hl, ?Hstop.
  - unfold ret. apply ok_eq; [done|]. apply world_eq; simpl; try done.
    erewrite alter_as_insert by eassumption.
    unfold set_subscribers. simpl. by rewrite ?Hsubs, ?Hl, ?Hstop.
Qed.

Lemma unsubscribe_missing s id w :
  stores w !! s = None -> unsubscribe (s, id) w = Throw (TypeError "not a store").
Proof. intros Hs. unfold unsubscribe, bind, get_store. by rewrite Hs. Qed.

Lemma subscribe_missing s run w :
  stores w !! s = None -> subscribe s run w = Throw (TypeError "not a store").
Proof. intros Hs. unfold subscribe, bind, get_store. by rewrite Hs. Qed.

(** [set] leaves the new value in the store, also when it calls nobody. *)
Lemma safe_equal_eq a b : safe_not_equal a b = false -> a = b.
Proof.
  unfold safe_not_equal. intros [H1 H2]%orb_false_elim.
  apply negb_false_iff in H1.
  destruct a, b; simpl in *; try done; apply bool_decide_eq_true_1 in H1; congruence.
Qed.

Lemma store_set_eq s v w st :
  stores w !! s = Some st ->
  store_set s v w = Ok (tt, set_to s v st w).
Proof.
  intros Hs. unfold store_set, set_to, bind, get_store. rewrite Hs. simpl.
  destruct (safe_not_equal _ _); [|done].
  unfold modify, with_store. erewrite alter_as_insert by eassumption.
  destruct (st_stop st); [|done].
  apply run_all_notified.
Qed.

Lemma notified_fields s l v w :
  window (notified s l v w) = window w /\
  context (notified s l v w) = context w /\
  console (notified s l v w) = console w /\
  stores (notified s l v w) = stores w /\
  listeners (notified s l v w) = listeners w.
Proof.
  revert w. induction l as [|[i cb] l IH]; intros w; [done|].
  simpl. destruct (IH (called (Some s) cb v w)) as (-> & -> & -> & -> & ->).
  apply called_fields.
Qed.


Lemma registration_of_Some s n r :
  registration_of s n = Some r ->
  target r = s /\ forall st, st_start st = n -> registered_for r st.
Proof. destruct n; intros; simplify_eq/=; by split. Qed.

Lemma store_ok_listeners w w' s st :
  (forall l li, listeners w !! l = Some li -> listeners w' !! l = Some li) ->
  store_ok w s st -> store_ok w' s st.
Proof.
  intros Hl [H1 H2]. split; [done|].
  destruct (st_stop st); [|done].
  destruct (registration_of s (st_start st)); [|done].
  destruct H2 as (-> & l & ? & ?). split; [done|]. exists l. eauto.
Qed.

Lemma wf_ext w w' :
  stores w' = stores w -> listeners w' = listeners w -> wf w -> wf w'.
Proof.
  intros Hs Hl [H1 H2]. split.
  - intros s st. rewrite Hs. intros H. eapply store_ok_listeners, H1; [|done].
    by rewrite Hl.
  - intros l li. rewrite Hl. intros (st & ? & ? & ?)%H2. exists st.
    by rewrite Hs.
Qed.

Lemma wf_create v n w w' :
  stores w' = stores w ++ [fresh_store v n] -> listeners w' = listeners w ->
  wf w -> wf w'.
Proof.
  intros Hs Hl [H1 H2]. split.
  - intros s st. rewrite Hs. intros [H|[_ H]]%lookup_app_Some.
    + eapply store_ok_listeners, H1; [|done]. by rewrite Hl.
    + destruct (s - length (stores w)); simplify_eq/=. by split.
  - intros l li. rewrite Hl. intros (st & ? & ? & ?)%H2. exists st.
    rewrite Hs. split; [|done]. by apply lookup_app_l_Some.
Qed.

Lemma wf_set_value s v st w w' :
  stores w !! s = Some st ->
  stores w' = <[s := set_value v st]> (stores w) ->
  listeners w' = listeners w -> wf w -> wf w'.
Proof.
  intros Hst Hs Hl [H1 H2]. 
  assert (Hlt : s < length (stores w)) by by eapply lookup_lt_Some.
  split.
  - intros s' st'. rewrite Hs. intros H.
    apply list_lookup_insert_Some in H as [(<- & <- & _)|[? H]].
    + eapply (store_ok_listeners w); [by rewrite Hl|].
      apply (H1 _ _ Hst).
    + eapply store_ok_listeners, H1; [|done]. by rewrite Hl.
  - intros l li. rewrite Hl. intros (st0 & Ht & ? & ?)%H2.
    unfold listener_ok. rewrite Hs.
    destruct (decide (target (l_registration li) = s)) as [E|E].
    + rewrite E in *. exists (set_value v st). simplify_eq.
      split; [by apply list_lookup_insert_eq|]. split; [|done].
      by destruct (l_registration li).
    + exists st0. by rewrite list_lookup_insert_ne.
Qed.

Lemma wf_subscribed s run st w w' :
  stores w !! s = Some st ->
  stores w' = <[s := subscribed s run (length (listeners w)) st]> (stores w) ->
  listeners w' = listeners w ++ registered s st ->
  wf w -> wf w'.
Proof.
  intros Hst Hs Hl [H1 H2].
  assert (Hlt : s < length (stores w)) by by eapply lookup_lt_Some.
  assert (Hmono : forall l li, listeners w !! l = Some li -> listeners w' !! l = Some li).
  { intros. rewrite Hl. by apply lookup_app_l_Some. }
  destruct (H1 _ _ Hst) as [Ha Hb].
  split.
  - intros s' st'. rewrite Hs. intros H.
    apply list_lookup_insert_Some in H as [(<- & <- & _)|[? H]];
      [|by eapply store_ok_listeners, H1].
    unfold store_ok, subscribed, registered, first_stop in *. simpl. rewrite Hl.
    destruct (st_subscribers st) as [|p subs] eqn:Hsubs; simpl.
    + split; [split; [done|by destruct (st_subscribers st)]|].
      destruct (registration_of s (st_start st)) as [r|]; [|done].
      split; [done|]. eexists. split; [done|].
      unfold registered. by rewrite lookup_app_r, Nat.sub_diag.
    + destruct (st_stop st) as [stop|]; [|by destruct Ha as [Ha _]; specialize (Ha eq_refl)].
      split; [done|].
      destruct (registration_of s (st_start st)) as [r|]; [|done].
      destruct Hb as (-> & l & ? & ?). split; [done|]. exists l. split; [done|].
      by apply lookup_app_l_Some.
  - intros l li. unfold listener_ok. rewrite Hl, Hs. intros [H|[Hge H]]%lookup_app_Some.
    + destruct (H2 _ _ H) as (st0 & Ht & ? & Hact).
      destruct (decide (target (l_registration li) = s)) as [E|E].
      * rewrite E in *. simplify_eq. eexists. split; [by apply list_lookup_insert_eq|].
        split; [by destruct (l_registration li)|].
        intros [Hstop Hun]%Hact. unfold subscribed. simpl.
        destruct (st_subscribers st); [|done].
        destruct Ha as [_ Ha]. rewrite Ha in Hstop; done.
      * exists st0. by rewrite list_lookup_insert_ne.
    + unfold registered in H.
      destruct (st_subscribers st) eqn:Hsubs; [|by destruct (_ - _)].
      destruct (registration_of s (st_start st)) as [r|] eqn:Hr; [|by destruct (_ - _)].
      destruct (l - length (listeners w)) eqn:Hd; [|done]. simplify_eq/=.
      apply registration_of_Some in Hr as Hr'. destruct Hr' as [-> Hr'].
      eexists. split; [by apply list_lookup_insert_eq|]. split.
      { assert (Hx := Hr' st eq_refl). by destruct r. }
      intros _. unfold subscribed, first_stop. simpl. rewrite Hsubs, Hr.
      split; [done|]. do 2 f_equal. lia.
Qed.


Lemma remaining_nonempty id st :
  remaining id st <> [] -> st_subscribers st <> [].
Proof. unfold remaining. by destruct (st_subscribers st). Qed.

Lemma wf_unsubscribed s id st w w' :
  stores w !! s = Some st ->
  stores w' = <[s := unsubscribed id st]> (stores w) ->
  listeners w' = cancelled id st (listeners w) ->
  wf w -> wf w'.
Proof.
  intros Hst Hs Hl [H1 H2].
  assert (Hlt : s < length (stores w)) by by eapply lookup_lt_Some.
  destruct (H1 _ _ Hst) as [Ha Hb].
  destruct (remaining id st) as [|p rest] eqn:Hrem.
  - (* the last subscriber leaves *)
    assert (Hother : forall l li, listeners w !! l = Some li ->
              target (l_registration li) <> s -> listeners w' !! l = Some li).
    { intros l li Hli Hne. rewrite Hl. unfold cancelled. rewrite Hrem.
      destruct (st_stop st) as [[]|]; try done.
      destruct (st_unsubscribe st) as [l0|] eqn:Hun; [|done].
      destruct (decide (l0 = l)) as [->|]; [|by rewrite list_lookup_alter_ne].
      destruct (registration_of s (st_start st)) as [r|] eqn:Hr; [|done].
      destruct Hb as (_ & l' & ? & Hl'). simplify_eq/=.
      apply registration_of_Some in Hr as [? _]. simpl in *. congruence. }
    split.
    + intros s' st'. rewrite Hs. intros H.
      apply list_lookup_insert_Some in H as [(<- & <- & _)|[Hne H]].
      { unfold store_ok, unsubscribed. simpl. by rewrite Hrem. }
      destruct (H1 _ _ H) as [Ha' Hb']. split; [done|].
      destruct (st_stop st') as [stop'|]; [|done].
      destruct (registration_of s' (st_start st')) as [r'|] eqn:Hr'; [|done].
      destruct Hb' as (-> & l' & ? & Hl'). split; [done|]. exists l'.
      split; [done|]. apply Hother; [done|]. simpl.
      apply registration_of_Some in Hr' as [-> _]. done.
    + intros l li. unfold listener_ok. rewrite Hs. intros Hli.
      assert (Hold : exists li0, listeners w !! l = Some li0 /\
                l_registration li0 = l_registration li /\
                (l_active li = true -> li0 = li)).
      { rewrite Hl in Hli. unfold cancelled in Hli. rewrite Hrem in Hli.
        destruct (st_stop st) as [[]|]; eauto.
        destruct (st_unsubscribe st) as [l0|]; eauto.
        rewrite list_lookup_alter in Hli. case_decide; eauto.
        apply fmap_Some in Hli as (li0 & Hli0 & ->).
        exists li0. simpl. split; [congruence|]. split; [done|]. done. }
      destruct Hold as (li0 & Hli0 & Hreg & Hsame).
      destruct (H2 _ _ Hli0) as (st0 & Ht & Hfor & Hact). rewrite Hreg in *.
      destruct (decide (target (l_registration li) = s)) as [E|E].
      * rewrite E in *. simplify_eq. eexists.
        split; [by apply list_lookup_insert_eq|].
        split; [by destruct (l_registration li)|].
        intros Hon. specialize (Hsame Hon). subst li0.
        destruct (Hact Hon) as [Hstop Hun]. exfalso.
        rewrite Hl in Hli. unfold cancelled in Hli.
        rewrite Hrem, Hstop, Hun, list_lookup_alter_eq, Hli0 in Hli.
        destruct li as [r a]. unfold deactivate in Hli. simpl in *. congruence.
      * exists st0. rewrite list_lookup_insert_ne by done.
        split; [done|]. split; [done|]. intros Hon.
        rewrite <- (Hsame Hon) in Hon. auto.
  - (* subscribers remain *)
    assert (Hl' : listeners w' = listeners w).
    { rewrite Hl. unfold cancelled. by rewrite Hrem. }
    assert (Hne : st_subscribers st <> []).
    { apply (remaining_nonempty id). by rewrite Hrem. }
    assert (Hstop : st_stop (unsubscribed id st) = st_stop st).
    { unfold unsubscribed. simpl. by rewrite Hrem. }
    split.
    + intros s' st'. rewrite Hs. intros H.
      apply list_lookup_insert_Some in H as [(<- & <- & _)|[? H]];
        [|eapply store_ok_listeners, H1; [by rewrite Hl'|done]].
      unfold store_ok. rewrite Hstop, Hl'. split; [|done].
      unfold unsubscribed. simpl. rewrite Hrem. split; [|done].
      intros ?. by apply Ha in H.
    + intros l li. unfold listener_ok. rewrite Hl', Hs.
      intros (st0 & Ht & ? & Hact)%H2.
      destruct (decide (target (l_registration li) = s)) as [E|E].
      * rewrite E in *. simplify_eq. eexists.
        split; [by apply list_lookup_insert_eq|].
        split; [by destruct (l_registration li)|].
        by rewrite Hstop.
      * exists st0. by rewrite list_lookup_insert_ne.
Qed.


(** *** What the constructors do, branch by branch *)

Lemma docStore_explicit (firestore : option Firestore) ref startWith w :
  context w = firestore ->
  docStore ref startWith w = Explicit.docStore firestore ref startWith w.
Proof.
  intros Hc. unfold docStore, bind at 1, getFirebaseContext. by rewrite Hc.
Qed.

Lemma collectionStore_explicit (firestore : option Firestore) ref startWith w :
  context w = firestore ->
  collectionStore ref startWith w =
  Explicit.collectionStore firestore ref (default_param startWith (VArr [])) w.
Proof.
  intros Hc. unfold collectionStore, bind at 1, getFirebaseContext.
  rewrite Hc. unfold Explicit.collectionStore. by destruct startWith.
Qed.

Lemma docStore_no_context e ref startWith w :
  context w = NoContext e -> docStore ref startWith w = Throw e.
Proof.
  intros Hc. unfold docStore, bind at 1, getFirebaseContext. by rewrite Hc.
Qed.

Lemma collectionStore_no_context e ref startWith w :
  context w = NoContext e -> collectionStore ref startWith w = Throw e.
Proof.
  intros Hc. unfold collectionStore, bind at 1, getFirebaseContext.
  by rewrite Hc.
Qed.

Lemma docStore_Ok ref startWith w d w' :
  docStore ref startWith w = Ok (d, w') ->
  exists firestore : option Firestore,
    context w = firestore /\
    Explicit.docStore firestore ref startWith w = Ok (d, w').
Proof.
  destruct (context w) as [firestore|e] eqn:Hc.
  - rewrite (docStore_explicit firestore) by done. by exists firestore.
  - by rewrite (docStore_no_context e).
Qed.

Lemma collectionStore_Ok ref startWith w d w' :
  collectionStore ref startWith w = Ok (d, w') ->
  exists firestore : option Firestore,
    context w = firestore /\
    Explicit.collectionStore firestore ref
      (default_param startWith (VArr [])) w = Ok (d, w').
Proof.
  destruct (context w) as [firestore|e] eqn:Hc.
  - rewrite (collectionStore_explicit firestore) by done. by exists firestore.
  - by rewrite (collectionStore_no_context e).
Qed.

Lemma docStore_ssr firestore ref startWith w :
  window w = false ->
  Explicit.docStore firestore ref startWith w =
    Ok ({| doc_subscribe := length (stores w); doc_ref := None; doc_id := "" |},
        set_stores (stores w ++ [fresh_store startWith noop]) w).
Proof. intros H. unfold Explicit.docStore, bind, gets. by rewrite H. Qed.

Lemma docStore_missing ref startWith w :
  window w = true ->
  Explicit.docStore None ref startWith w =
    Ok ({| doc_subscribe := length (stores w); doc_ref := None; doc_id := "" |},
        set_stores (stores w ++ [fresh_store VNull noop])
          (set_console (console w ++ [not_initialized]) w)).
Proof. intros H. unfold Explicit.docStore, bind, gets. by rewrite H. Qed.

Lemma docStore_path firestore path startWith w :
  window w = true ->
  Explicit.docStore (Some firestore) (inl path) startWith w =
    match doc firestore path with
    | Ok docRef =>
        Ok ({| doc_subscribe := length (stores w); doc_ref := Some docRef;
               doc_id := ref_id docRef |},
            set_stores (stores w ++ [fresh_store startWith (DocStart docRef)]) w)
    | Throw e => Throw e
    end.
Proof.
  intros H. unfold Explicit.docStore, bind, gets, lift. rewrite H. simpl.
  by destruct (doc firestore path).
Qed.

Lemma docStore_reference firestore docRef startWith w :
  window w = true ->
  Explicit.docStore (Some firestore) (inr docRef) startWith w =
    Ok ({| doc_subscribe := length (stores w); doc_ref := Some docRef;
           doc_id := ref_id docRef |},
        set_stores (stores w ++ [fresh_store startWith (DocStart docRef)]) w).
Proof. intros H. unfold Explicit.docStore, bind, gets. by rewrite H. Qed.

Lemma collectionStore_ssr firestore ref startWith w :
  window w = false ->
  Explicit.collectionStore firestore ref startWith w =
    Ok ({| col_subscribe := length (stores w); col_ref := None |},
        set_stores (stores w ++ [fresh_store startWith noop]) w).
Proof.
  intros H. unfold Explicit.collectionStore, bind, gets. rewrite H.
  by destruct startWith.
Qed.

Lemma collectionStore_missing ref startWith w :
  window w = true ->
  Explicit.collectionStore None ref startWith w =
    Ok ({| col_subscribe := length (stores w); col_ref := None |},
        set_stores (stores w ++ [fresh_store (VArr []) noop])
          (set_console (console w ++ [not_initialized]) w)).
Proof. intros H. unfold Explicit.collectionStore, bind, gets. by rewrite H. Qed.

Lemma collectionStore_path firestore path startWith w :
  window w = true ->
  Explicit.collectionStore (Some firestore) (inl path) startWith w =
    match collection firestore path with
    | Ok colRef =>
        Ok ({| col_subscribe := length (stores w); col_ref := Some colRef |},
            set_stores (stores w ++ [fresh_store startWith (ColStart colRef)]) w)
    | Throw e => Throw e
    end.
Proof.
  intros H. unfold Explicit.collectionStore, bind, gets, lift. rewrite H. simpl.
  destruct (collection firestore path); [|done]. by destruct startWith.
Qed.

Lemma collectionStore_reference firestore colRef startWith w :
  window w = true ->
  Explicit.collectionStore (Some firestore) (inr colRef) startWith w =
    Ok ({| col_subscribe := length (stores w); col_ref := Some colRef |},
        set_stores (stores w ++ [fresh_store startWith (ColStart colRef)]) w).
Proof.
  intros H. unfold Explicit.collectionStore, bind, gets. rewrite H.
  by destruct startWith.
Qed.

Lemma docStore_created firestore ref startWith w d w' :
  Explicit.docStore firestore ref startWith w = Ok (d, w') ->
  exists v n, created (doc_subscribe d) v n w w'.
Proof.
  destruct (window w) eqn:Hw.
  - destruct firestore as [f|].
    + destruct ref as [path|docRef].
      * rewrite docStore_path by done. destruct (doc f path); [|done].
        intros [= <- <-]. by eexists _, _.
      * rewrite docStore_reference by done.
        intros [= <- <-]. by eexists _, _.
    + rewrite docStore_missing by done. intros [= <- <-]. by eexists _, _.
  - rewrite docStore_ssr by done. intros [= <- <-]. by eexists _, _.
Qed.

Lemma collectionStore_created firestore ref startWith w d w' :
  Explicit.collectionStore firestore ref startWith w = Ok (d, w') ->
  exists v n, created (col_subscribe d) v n w w'.
Proof.
  destruct (window w) eqn:Hw.
  - destruct firestore as [f|].
    + destruct ref as [path|colRef].
      * rewrite collectionStore_path by done. destruct (collection f path); [|done].
        intros [= <- <-]. by eexists _, _.
      * rewrite collectionStore_reference by done.
        intros [= <- <-]. by eexists _, _.
    + rewrite collectionStore_missing by done. intros [= <- <-]. by eexists _, _.
  - rewrite collectionStore_ssr by done. intros [= <- <-]. by eexists _, _.
Qed.


(** *** Invariants of the effects *)

Lemma bind_Ok {A B} (m : M A) (k : A -> M B) w b w' :
  bind m k w = Ok (b, w') ->
  exists a w1, m w = Ok (a, w1) /\ k a w1 = Ok (b, w').
Proof.
  unfold bind. destruct (m w) as [[a w1]|]; [|done]. eauto.
Qed.

Lemma preserves_bind {A B} P (m : M A) (k : A -> M B) :
  preserves P m -> (forall a, preserves P (k a)) -> preserves P (bind m k).
Proof.
  intros Hm Hk w b w' HP (a & w1 & H1 & H2)%bind_Ok.
  eapply Hk; [|done]. eapply Hm; done.
Qed.

Lemma preserves_ret {A} P (a : A) : preserves P (ret a).
Proof. intros w a' w' HP [= _ <-]. done. Qed.

Lemma preserves_gets {A} P (f : world -> A) : preserves P (gets f).
Proof. intros w a' w' HP [= _ <-]. done. Qed.

Lemma preserves_ignore {A} P (m : M A) : preserves P m -> preserves P (ignore m).
Proof. intros. apply preserves_bind; [done|]. intros. apply preserves_ret. Qed.

Lemma wf_called caller cb v w : wf w -> wf (called caller cb v w).
Proof. apply wf_ext; apply called_fields. Qed.

Lemma wf_notified s l v w : wf w -> wf (notified s l v w).
Proof. apply wf_ext; apply notified_fields. Qed.

Lemma wf_created s v n w w' : created s v n w w' -> wf w -> wf w'.
Proof. intros (_ & ? & ? & _). by eapply wf_create. Qed.

Lemma wf_unsubscribe_defined w s st :
  wf w -> stores w !! s = Some st ->
  st_stop st = Some StopUnsubscribe -> is_Some (st_unsubscribe st).
Proof.
  intros [H1 _] Hs Hstop. destruct (H1 _ _ Hs) as [_ H]. rewrite Hstop in H.
  destruct (registration_of s (st_start st)); [|done].
  destruct H as (_ & l & -> & _). eauto.
Qed.

Lemma wf_docStore firestore ref startWith :
  preserves wf (Explicit.docStore firestore ref startWith).
Proof.
  intros w d w' Hwf (v & n & H)%docStore_created. by eapply wf_created.
Qed.

Lemma wf_collectionStore firestore ref startWith :
  preserves wf (Explicit.collectionStore firestore ref startWith).
Proof.
  intros w d w' Hwf (v & n & H)%collectionStore_created. by eapply wf_created.
Qed.

Lemma wf_docStore_context ref startWith :
  preserves wf (docStore ref startWith).
Proof.
  intros w d w' Hwf (firestore & _ & H)%docStore_Ok. by eapply wf_docStore.
Qed.

Lemma wf_collectionStore_context ref startWith :
  preserves wf (collectionStore ref startWith).
Proof.
  intros w d w' Hwf (firestore & _ & H)%collectionStore_Ok.
  by eapply wf_collectionStore.
Qed.

Lemma wf_declare : preserves wf declare.
Proof. intros w a w' Hwf [= _ <-]. by apply (wf_ext w). Qed.

Lemma wf_call caller cb v : preserves wf (call caller cb v).
Proof. intros w a w' Hwf [= _ <-]. by apply wf_called. Qed.

Lemma wf_subscribe s run : preserves wf (subscribe s run).
Proof.
  intros w u w' Hwf. destruct (stores w !! s) as [st|] eqn:Hs.
  - rewrite (subscribe_eq _ _ _ _ Hs). intros [= _ <-].
    apply wf_called. by eapply (wf_subscribed s run st w).
  - by rewrite subscribe_missing.
Qed.

Lemma wf_unsubscribe u : preserves wf (unsubscribe u).
Proof.
  destruct u as [s id]. intros w [] w' Hwf.
  destruct (stores w !! s) as [st|] eqn:Hs.
  - rewrite (unsubscribe_eq _ _ _ _ Hs) by by eapply wf_unsubscribe_defined.
    intros [= <-]. by eapply (wf_unsubscribed s id st w).
  - by rewrite unsubscribe_missing.
Qed.

Lemma wf_set_to s v st w :
  stores w !! s = Some st -> wf w -> wf (set_to s v st w).
Proof.
  intros Hs Hwf. unfold set_to. destruct (safe_not_equal _ _); [|done].
  assert (wf (set_stores (<[s:=set_value v st]> (stores w)) w))
    by by eapply (wf_set_value s v st w).
  destruct (st_stop st); [|done]. by apply wf_notified.
Qed.

Lemma wf_store_set s v : preserves wf (store_set s v).
Proof.
  intros w [] w' Hwf. destruct (stores w !! s) as [st|] eqn:Hs.
  - rewrite (store_set_eq _ _ _ _ Hs). intros [= <-]. by apply wf_set_to.
  - unfold store_set, bind, get_store. by rewrite Hs.
Qed.

Lemma wf_deliver_doc l snapshot : preserves wf (deliver_doc l snapshot).
Proof.
  intros w [] w' Hwf. unfold deliver_doc.
  destruct (listeners w !! l) as [[[r s|] []]|]; try by intros [= <-].
  by apply wf_store_set.
Qed.

Lemma wf_deliver_query l snapshot : preserves wf (deliver_query l snapshot).
Proof.
  intros w [] w' Hwf. unfold deliver_query.
  destruct (listeners w !! l) as [[[|r s] []]|]; try by intros [= <-].
  by apply wf_store_set.
Qed.

Lemma wf_step a : preserves wf (step a).
Proof.
  destruct a; simpl.
  - apply preserves_ignore, wf_docStore_context.
  - apply preserves_ignore, wf_collectionStore_context.
  - apply preserves_ignore, wf_docStore.
  - apply preserves_ignore, wf_collectionStore.
  - apply preserves_ignore, wf_declare.
  - apply wf_call.
  - apply preserves_ignore, wf_subscribe.
  - apply wf_unsubscribe.
  - apply wf_deliver_doc.
  - apply wf_deliver_query.
Qed.

Lemma wf_initial w : initial w -> wf w.
Proof.
  intros (Hs & Hl & _). split.
  - intros s st. by rewrite Hs.
  - intros l li. by rewrite Hl.
Qed.

Lemma reachable_wf w : reachable w -> wf w.
Proof.
  induction 1 as [w Hi|w a w' _ IH Hstep]; [by apply wf_initial|].
  by eapply wf_step.
Qed.

Lemma reachable_run acts w w' :
  reachable w -> run acts w = Ok (tt, w') -> reachable w'.
Proof.
  revert w. induction acts as [|a acts IH]; intros w Hw.
  - by intros [= <-].
  - intros ([] & w1 & H1 & H2)%bind_Ok. eapply IH; [|done].
    by eapply reachable_step.
Qed.


(** ** Path resolution *)

(** C3. In the live branch a path is resolved with [doc] (with
    [collection] by [collectionStore]) and the resolved reference is the
    [ref] of the store; when [doc] or [collection] throws, so does the
    constructor; a reference or query is the [ref] of the store as it
    is. *)
Theorem path_resolution firestore startWith w :
  window w = true -> context w = Some firestore ->
  (forall path,
     match doc firestore path with
     | Ok docRef =>
         exists d w', docStore (inl path) startWith w = Ok (d, w') /\
           Explicit.docStore (Some firestore) (inl path) startWith w = Ok (d, w') /\
           doc_ref d = Some docRef
     | Throw e =>
         docStore (inl path) startWith w = Throw e /\
         Explicit.docStore (Some firestore) (inl path) startWith w = Throw e
     end) /\
  (forall docRef,
     exists d w', docStore (inr docRef) startWith w = Ok (d, w') /\
       Explicit.docStore (Some firestore) (inr docRef) startWith w = Ok (d, w') /\
       doc_ref d = Some docRef) /\
  (forall path,
     match collection firestore path with
     | Ok colRef =>
         exists c c' w1 w2,
           collectionStore (inl path) startWith w = Ok (c, w1) /\
           Explicit.collectionStore (Some firestore) (inl path) startWith w = Ok (c', w2) /\
           col_ref c = Some colRef /\ col_ref c' = Some colRef
     | Throw e =>
         collectionStore (inl path) startWith w = Throw e /\
         Explicit.collectionStore (Some firestore) (inl path) startWith w = Throw e
     end) /\
  (forall colRef,
     exists c c' w1 w2,
       collectionStore (inr colRef) startWith w = Ok (c, w1) /\
       Explicit.collectionStore (Some firestore) (inr colRef) startWith w = Ok (c', w2) /\
       col_ref c = Some colRef /\ col_ref c' = Some colRef).
Proof.
  intros Hw Hc. repeat split.
  - intros path. rewrite (docStore_explicit _ _ _ _ Hc), docStore_path by done.
    destruct (doc firestore path); [|done]. by eexists _, _.
  - intros docRef. rewrite (docStore_explicit _ _ _ _ Hc), docStore_reference by done.
    by eexists _, _.
  - intros path.
    rewrite (collectionStore_explicit _ _ _ _ Hc), !collectionStore_path by done.
    destruct (collection firestore path); [|done]. by eexists _, _, _, _.
  - intros colRef.
    rewrite (collectionStore_explicit _ _ _ _ Hc), !collectionStore_reference by done.
    by eexists _, _, _, _.
Qed.

Lemma created_lookup s v n w w' :
  created s v n w w' -> stores w' !! s = Some (fresh_store v n).
Proof.
  intros (-> & -> & _). by rewrite lookup_app_r, Nat.sub_diag.
Qed.

(** [let value; store.subscribe((val) => (value = val))(); return value]
    on a store that nobody has subscribed to. *)
Lemma read_once s v n w :
  stores w !! s = Some (fresh_store v n) ->
  (let* value := declare in
   let* unsubscriber := subscribe s (Assign value) in
   unsubscribe unsubscriber ;> read value) w =
  Ok (v,
      set_stores (<[s := visited s (length (listeners w)) (fresh_store v n)]> (stores w))
        (set_listeners (listeners w ++ visit s (fresh_store v n))
           (set_cells (cells w ++ [v]) w))).
Proof.
  intros Hs.
  assert (Hlt : s < length (stores w)) by by eapply lookup_lt_Some.
  unfold bind at 1. simpl.
  unfold bind at 1. erewrite subscribe_eq by (simpl; eassumption). simpl.
  unfold bind at 1. erewrite unsubscribe_eq; simpl.
  2: { by apply list_lookup_insert_eq. }
  2: { destruct n; simpl; eauto. by intros [=]. }
  unfold read, gets. simpl. apply ok_eq.
  - rewrite list_lookup_insert_eq by by rewrite length_app; simpl; lia.
    done.
  - apply world_eq; simpl; try done.
    + rewrite list_insert_insert_eq. by destruct n.
    + unfold cancelled, remaining, visit, registered, first_stop. simpl.
      unfold first_stop. simpl.
      destruct n; simpl; rewrite ?app_nil_r; try done.
      all: rewrite alter_app_r_alt by done; by rewrite Nat.sub_diag.
    + replace (length (cells w)) with (length (cells w) + 0) at 1 by lia.
      by rewrite insert_app_r.
Qed.


Lemma created_live_collection firestore ref startWith w d w' :
  window w = true ->
  Explicit.collectionStore (Some firestore) ref startWith w = Ok (d, w') ->
  exists colRef, col_ref d = Some colRef /\
    created (col_subscribe d) startWith (ColStart colRef) w w'.
Proof.
  intros Hw. destruct ref as [path|colRef].
  - rewrite collectionStore_path by done.
    destruct (collection firestore path) as [colRef|]; [|done].
    intros [= <- <-]. by exists colRef.
  - rewrite collectionStore_reference by done. intros [= <- <-]. by exists colRef.
Qed.

Lemma deliver_doc_inactive l snapshot w r :
  listeners w !! l = Some {| l_registration := r; l_active := false |} ->
  deliver_doc l snapshot w = Ok (tt, w).
Proof. intros H. unfold deliver_doc. rewrite H. by destruct r. Qed.

Lemma deliver_query_inactive l snapshot w r :
  listeners w !! l = Some {| l_registration := r; l_active := false |} ->
  deliver_query l snapshot w = Ok (tt, w).
Proof. intros H. unfold deliver_query. rewrite H. by destruct r. Qed.

(** Whatever the branch, the read returns the value the store is made
    with and leaves the store as after one visit. *)
Lemma getDocValue_created firestore ref startWith w d w1 v n :
  Explicit.docStore firestore ref startWith w = Ok (d, w1) ->
  created (doc_subscribe d) v n w w1 ->
  Explicit.getDocValue firestore ref startWith w =
    Ok (v, set_stores
             (<[doc_subscribe d :=
                  visited (doc_subscribe d) (length (listeners w)) (fresh_store v n)]>
                (stores w ++ [fresh_store v n]))
             (set_listeners (listeners w ++ visit (doc_subscribe d) (fresh_store v n))
                (set_cells (cells w ++ [v]) w1))).
Proof.
  intros Hd Hc. pose proof (created_lookup _ _ _ _ _ Hc) as Hs.
  destruct Hc as (Hlen & Hst & Hl & Hcells & _).
  unfold Explicit.getDocValue, bind at 1. rewrite Hd.
  rewrite (read_once _ _ _ _ Hs). by rewrite Hst, Hl, Hcells.
Qed.

Lemma getCollectionValue_created firestore ref startWith w d w1 v n :
  Explicit.collectionStore firestore ref startWith w = Ok (d, w1) ->
  created (col_subscribe d) v n w w1 ->
  Explicit.getCollectionValue firestore ref startWith w =
    Ok (v, set_stores
             (<[col_subscribe d :=
                  visited (col_subscribe d) (length (listeners w)) (fresh_store v n)]>
                (stores w ++ [fresh_store v n]))
             (set_listeners (listeners w ++ visit (col_subscribe d) (fresh_store v n))
                (set_cells (cells w ++ [v]) w1))).
Proof.
  intros Hd Hc. pose proof (created_lookup _ _ _ _ _ Hc) as Hs.
  destruct Hc as (Hlen & Hst & Hl & Hcells & _).
  unfold Explicit.getCollectionValue, bind at 1.
  replace (default_param startWith VUndefined) with startWith
    by by destruct startWith.
  rewrite Hd. rewrite (read_once _ _ _ _ Hs). by rewrite Hst, Hl, Hcells.
Qed.

(** C10. [getDocValue] and [getCollectionValue] subscribe to the store
    they make, keep the one value the subscriber is called with, call the
    unsubscriber and return that value. In the live branch it is
    [startWith]: the store is left without subscribers, the listener
    that was registered is cancelled, and a snapshot that arrives for it
    afterwards changes nothing. *)
Theorem one_shot_read firestore startWith w :
  window w = true ->
  (forall ref docRef,
     match ref with
     | inl path => doc firestore path = Ok docRef
     | inr r => r = docRef
     end ->
     exists w' st,
       Explicit.getDocValue (Some firestore) ref startWith w = Ok (startWith, w') /\
       cells w' = cells w ++ [startWith] /\
       stores w' !! length (stores w) = Some st /\
       st_subscribers st = [] /\ st_start st = DocStart docRef /\
       listeners w' = listeners w ++
         [ {| l_registration := OnDoc docRef (length (stores w));
              l_active := false |} ] /\
       forall snapshot,
         deliver_doc (length (listeners w)) snapshot w' = Ok (tt, w')) /\
  (forall ref colRef,
     match ref with
     | inl path => collection firestore path = Ok colRef
     | inr r => r = colRef
     end ->
     exists w' st,
       Explicit.getCollectionValue (Some firestore) ref startWith w = Ok (startWith, w') /\
       cells w' = cells w ++ [startWith] /\
       stores w' !! length (stores w) = Some st /\
       st_subscribers st = [] /\ st_start st = ColStart colRef /\
       listeners w' = listeners w ++
         [ {| l_registration := OnQuery colRef (length (stores w));
              l_active := false |} ] /\
       forall snapshot,
         deliver_query (length (listeners w)) snapshot w' = Ok (tt, w')).
Proof.
  intros Hw. split.
  - intros ref docRef Href.
    assert (Hd : Explicit.docStore (Some firestore) ref startWith w =
      Ok ({| doc_subscribe := length (stores w); doc_ref := Some docRef;
             doc_id := ref_id docRef |},
          set_stores (stores w ++ [fresh_store startWith (DocStart docRef)]) w)).
    { destruct ref as [path|r].
      - by rewrite docStore_path, Href.
      - subst r. by rewrite docStore_reference. }
    eexists _, _. split.
    { erewrite getDocValue_created; [done|exact Hd|done]. }
    simpl. split; [done|]. split.
    { apply list_lookup_insert_eq. rewrite length_app. simpl. lia. }
    split; [done|]. split; [done|]. split; [done|].
    intros snapshot. eapply deliver_doc_inactive. simpl.
    by rewrite lookup_app_r, Nat.sub_diag.
  - intros ref colRef Href.
    assert (Hd : Explicit.collectionStore (Some firestore) ref startWith w =
      Ok ({| col_subscribe := length (stores w); col_ref := Some colRef |},
          set_stores (stores w ++ [fresh_store startWith (ColStart colRef)]) w)).
    { destruct ref as [path|r].
      - by rewrite collectionStore_path, Href.
      - subst r. by rewrite collectionStore_reference. }
    eexists _, _. split.
    { erewrite getCollectionValue_created; [done|exact Hd|done]. }
    simpl. split; [done|]. split.
    { apply list_lookup_insert_eq. rewrite length_app. simpl. lia. }
    split; [done|]. split; [done|]. split; [done|].
    intros snapshot. eapply deliver_query_inactive. simpl.
    by rewrite lookup_app_r, Nat.sub_diag.
Qed.

Lemma ignore_Ok {A} (m : M A) w w' :
  ignore m w = Ok (tt, w') -> exists a, m w = Ok (a, w').
Proof. intros (a & w1 & H & [= <-])%bind_Ok. eauto. Qed.

Lemma step_effect a w w' :
  wf w -> step a w = Ok (tt, w') -> effect w a w'.
Proof.
  intros Hwf. destruct a as [ref sw|ref sw|f ref sw|f ref sw| |cb v|s run|[s id]|l snap|l snap];
    simpl.
  - intros [d (firestore & _ & H)%docStore_Ok]%ignore_Ok.
    apply docStore_created in H as (v & n & H). by eapply effect_created.
  - intros [d (firestore & _ & H)%collectionStore_Ok]%ignore_Ok.
    apply collectionStore_created in H as (v & n & H). by eapply effect_created.
  - intros [d H]%ignore_Ok.
    apply docStore_created in H as (v & n & H). by eapply effect_created.
  - intros [d H]%ignore_Ok.
    apply collectionStore_created in H as (v & n & H). by eapply effect_created.
  - intros [c [= _ <-]]%ignore_Ok. constructor.
  - intros [= <-]. constructor.
  - intros [u H]%ignore_Ok. destruct (stores w !! s) as [st|] eqn:Hs.
    + rewrite (subscribe_eq _ _ _ _ Hs) in H. injection H as _ <-.
      by constructor.
    + by rewrite subscribe_missing in H.
  - destruct (stores w !! s) as [st|] eqn:Hs.
    + rewrite (unsubscribe_eq _ _ _ _ Hs) by by eapply wf_unsubscribe_defined.
      intros [= <-]. by constructor.
    + by rewrite unsubscribe_missing.
  - unfold deliver_doc.
    destruct (listeners w !! l) as [[[docRef s|] []]|] eqn:Hl;
      try (intros [= <-]; apply effect_none).
    destruct (wf_listeners _ Hwf _ _ Hl) as (st & Hs & Hfor & Hact). simpl in *.
    destruct (Hact eq_refl) as [Hstop _].
    unfold doc_callback. rewrite (store_set_eq _ _ _ _ Hs). intros [= <-].
    by eapply effect_doc.
  - unfold deliver_query.
    destruct (listeners w !! l) as [[[|colRef s] []]|] eqn:Hl;
      try (intros [= <-]; apply effect_none).
    destruct (wf_listeners _ Hwf _ _ Hl) as (st & Hs & Hfor & Hact). simpl in *.
    destruct (Hact eq_refl) as [Hstop _].
    unfold collection_callback. rewrite (store_set_eq _ _ _ _ Hs). intros [= <-].
    by eapply effect_query.
Qed.

Lemma received_called caller cb v w :
  received (called caller cb v w) = received w ++ heard caller cb v.
Proof. destruct cb; simpl; by rewrite ?app_nil_r. Qed.

Lemma received_notified s l v w :
  received (notified s l v w) = received w ++ emissions s l v.
Proof.
  revert w. induction l as [|[i cb] l IH]; intros w.
  - simpl. by rewrite app_nil_r.
  - change (notified s ((i, cb) :: l) v w)
      with (notified s l v (called (Some s) cb v w)).
    rewrite IH, received_called. unfold emissions. simpl. by rewrite app_assoc.
Qed.

Lemma received_set_to s v st w :
  received (set_to s v st w) = received w ++ announced s v st.
Proof.
  unfold set_to, announced. destruct (safe_not_equal _ _); [|by rewrite app_nil_r].
  destruct (st_stop st); [|by rewrite app_nil_r].
  by rewrite received_notified.
Qed.

Lemma stores_set_to s v st w :
  stores w !! s = Some st ->
  stores (set_to s v st w) = <[s := set_value v st]> (stores w).
Proof.
  intros Hs. unfold set_to. destruct (safe_not_equal _ _) eqn:Hne.
  - destruct (st_stop st); [|done].
    by destruct (notified_fields s (st_subscribers st) v
      (set_stores (<[s:=set_value v st]> (stores w)) w)) as (_ & _ & _ & -> & _).
  - apply safe_equal_eq in Hne. symmetry. apply list_insert_id.
    rewrite Hs. f_equal. destruct st; unfold set_value; simpl in *. by subst.
Qed.

Lemma listeners_set_to s v st w :
  listeners (set_to s v st w) = listeners w.
Proof.
  unfold set_to. destruct (safe_not_equal _ _); [|done].
  destruct (st_stop st); [|done].
  by destruct (notified_fields s (st_subscribers st) v
    (set_stores (<[s:=set_value v st]> (stores w)) w)) as (_ & _ & _ & _ & ->).
Qed.

Lemma emissions_tag s l v e :
  e ∈ emissions s l v -> em_store e = Some s /\ em_value e = v.
Proof.
  unfold emissions. intros ([i cb] & He & _)%list_elem_of_bind.
  destruct cb; simpl in He; [|by apply elem_of_nil in He].
  by apply list_elem_of_singleton in He as ->.
Qed.

Lemma announced_tag s v st e :
  e ∈ announced s v st -> em_store e = Some s /\ em_value e = v.
Proof.
  unfold announced. destruct (safe_not_equal _ _); [|by intros ?%elem_of_nil].
  destruct (st_stop st); [|by intros ?%elem_of_nil]. apply emissions_tag.
Qed.

Lemma heard_tag caller cb v e :
  e ∈ heard caller cb v -> em_store e = caller /\ em_value e = v.
Proof.
  destruct cb; simpl; [|by intros ?%elem_of_nil].
  by intros ->%list_elem_of_singleton.
Qed.

(** What a step does to the stores, the listeners and the observers. *)
Lemma effect_length w a w' :
  effect w a w' -> length (stores w) <= length (stores w').
Proof.
  destruct 1 as [a s v n w' H| | | | | | |]; simpl;
    rewrite ?(proj1 (proj2 (proj2 (proj2 (called_fields _ _ _ _))))); simpl;
    rewrite ?stores_set_to by done; rewrite ?length_insert; try done.
  destruct H as (_ & -> & _). rewrite length_app. lia.
Qed.

Lemma tagged_effect w a w' : effect w a w' -> tagged w -> tagged w'.
Proof.
  intros He Ht. pose proof (effect_length _ _ _ He) as Hlen.
  assert (Hold : forall e s, e ∈ received w -> em_store e = Some s ->
            s < length (stores w')).
  { intros e s ? ?. eapply Nat.lt_le_trans; [by eapply Ht|done]. }
  destruct He as [a s v n w' H| |cb v|s run st Hs|s id st Hs
                 |l docRef s st snap Hl Hs _ _|l colRef s st snap Hl Hs _ _|];
    intros e s'; simpl; try by apply Hold.
  - destruct H as (_ & _ & _ & _ & -> & _). by apply Hold.
  - rewrite received_called. intros [?|[? _]%heard_tag]%elem_of_app; [by eauto|].
    congruence.
  - rewrite received_called. simpl.
    intros [?|[? _]%heard_tag]%elem_of_app; [by eauto|]. intros ?. simplify_eq.
    eapply Nat.lt_le_trans; [by eapply lookup_lt_Some|done].
  - rewrite received_set_to.
    intros [?|[? _]%announced_tag]%elem_of_app; [by eauto|]. intros ?. simplify_eq.
    eapply Nat.lt_le_trans; [by eapply lookup_lt_Some|done].
  - rewrite received_set_to.
    intros [?|[? _]%announced_tag]%elem_of_app; [by eauto|]. intros ?. simplify_eq.
    eapply Nat.lt_le_trans; [by eapply lookup_lt_Some|done].
Qed.

(** A step keeps every store and its notifier, and a store without
    notifier keeps its value. *)
Lemma effect_store w a w' s st :
  effect w a w' -> stores w !! s = Some st ->
  exists st', stores w' !! s = Some st' /\ st_start st' = st_start st /\
    (st_start st = noop -> st_value st' = st_value st).
Proof.
  intros He Hst.
  assert (Hlt : s < length (stores w)) by by eapply lookup_lt_Some.
  destruct He as [a s' v' n w' H| |cb v'|s' run st1 Hs|s' id st1 Hs
                 |l docRef s' st1 snap Hl Hs Hstart _
                 |l colRef s' st1 snap Hl Hs Hstart _|];
    simpl; eauto.
  - destruct H as (_ & -> & _). exists st. split; [|done].
    by apply lookup_app_l_Some.
  - rewrite (proj1 (proj2 (proj2 (proj2 (called_fields _ _ _ _))))). eauto.
  - rewrite (proj1 (proj2 (proj2 (proj2 (called_fields _ _ _ _))))). simpl.
    destruct (decide (s' = s)) as [->|].
    + simplify_eq. eexists. split; [by apply list_lookup_insert_eq|]. done.
    + exists st. by rewrite list_lookup_insert_ne.
  - destruct (decide (s' = s)) as [->|].
    + simplify_eq. eexists. split; [by apply list_lookup_insert_eq|]. done.
    + exists st. by rewrite list_lookup_insert_ne.
  - rewrite stores_set_to by done. destruct (decide (s' = s)) as [->|].
    + simplify_eq. eexists. split; [by apply list_lookup_insert_eq|].
      split; [done|]. congruence.
    + exists st. by rewrite list_lookup_insert_ne.
  - rewrite stores_set_to by done. destruct (decide (s' = s)) as [->|].
    + simplify_eq. eexists. split; [by apply list_lookup_insert_eq|].
      split; [done|]. congruence.
    + exists st. by rewrite list_lookup_insert_ne.
Qed.

(** What a step makes the observers hear of a store is the value the
    store has after the step. *)
Lemma effect_received w a w' :
  effect w a w' ->
  exists new, received w' = received w ++ new /\
    forall e s, e ∈ new -> em_store e = Some s ->
      exists st', stores w' !! s = Some st' /\ st_value st' = em_value e.
Proof.
  intros He.
  destruct He as [a s' v' n w' H| |cb v'|s' run st1 Hs|s' id st1 Hs
                 |l docRef s' st1 snap Hl Hs Hstart _
                 |l colRef s' st1 snap Hl Hs Hstart _|].
  - exists []. destruct H as (_ & _ & _ & _ & -> & _). rewrite app_nil_r.
    split; [done|]. by intros e s ?%elem_of_nil.
  - exists []. simpl. rewrite app_nil_r. split; [done|]. by intros e s ?%elem_of_nil.
  - eexists. split; [apply received_called|].
    intros e s [? _]%heard_tag. congruence.
  - eexists. split; [by rewrite received_called|].
    intros e s [? Hv]%heard_tag ?. simplify_eq.
    rewrite (proj1 (proj2 (proj2 (proj2 (called_fields _ _ _ _))))). simpl.
    eexists. split; [by apply list_lookup_insert_eq, lookup_lt_Some with st1|].
    by rewrite Hv.
  - exists []. simpl. rewrite app_nil_r. split; [done|]. by intros e s ?%elem_of_nil.
  - eexists. split; [apply received_set_to|].
    intros e s [? <-]%announced_tag ?. simplify_eq.
    rewrite stores_set_to by done.
    eexists. split; [by apply list_lookup_insert_eq, lookup_lt_Some with st1|].
    by simpl.
  - eexists. split; [apply received_set_to|].
    intros e s [? <-]%announced_tag ?. simplify_eq.
    rewrite stores_set_to by done.
    eexists. split; [by apply list_lookup_insert_eq, lookup_lt_Some with st1|].
    by simpl.
  - exists []. rewrite app_nil_r. split; [done|]. by intros e s ?%elem_of_nil.
Qed.

Lemma settled_effect s v w a w' :
  effect w a w' -> settled s v w -> settled s v w'.
Proof.
  intros He [(st & Hs & Hstart & Hval) Hrec].
  destruct (effect_store _ _ _ _ _ He Hs) as (st' & Hs' & Hstart' & Hval').
  split.
  - exists st'. split; [done|]. split; [congruence|]. rewrite Hval'; done.
  - destruct (effect_received _ _ _ He) as (new & -> & Hnew).
    intros e [?|Hin]%elem_of_app Htag; [by eauto|].
    destruct (Hnew _ _ Hin Htag) as (st'' & ? & <-). simplify_eq.
    rewrite Hval'; done.
Qed.

Lemma run_invariant (P : world -> Prop) acts w w' :
  (forall a w w', wf w -> P w -> effect w a w' -> P w') ->
  wf w -> P w -> run acts w = Ok (tt, w') -> wf w' /\ P w'.
Proof.
  intros HP. revert w. induction acts as [|a acts IH]; intros w Hwf Hw.
  - by intros [= <-].
  - intros ([] & w1 & H1 & H2)%bind_Ok. apply (IH w1); [| |done].
    + by eapply wf_step.
    + eapply HP; [done..|]. by apply step_effect.
Qed.

Lemma settled_fallback s v w : wf w -> settled s v w -> fallback s v w.
Proof.
  intros Hwf Hset acts w' Hrun.
  destruct (run_invariant (settled s v) acts w w') as [Hwf' [(st & Hs & Hstart & Hval) Hrec]];
    try done.
  { intros. by eapply settled_effect. }
  split; [|split].
  - intros l li Hl Ht. destruct (wf_listeners _ Hwf' _ _ Hl) as (st' & Hs' & Hfor & _).
    rewrite Ht in Hs'. simplify_eq.
    destruct (l_registration li); simpl in Hfor; congruence.
  - intros x. unfold emitted.
    intros (e & -> & [? ?]%list_elem_of_filter)%list_elem_of_fmap. by eapply Hrec.
  - intros o. eexists _, _. split; [by apply subscribe_eq|].
    rewrite received_called.
    rewrite (proj2 (proj2 (proj2 (proj2 (called_fields _ _ _ _))))). simpl.
    subst v. split; [done|].
    unfold registered. rewrite Hstart. simpl.
    destruct (st_subscribers st); by rewrite app_nil_r.
Qed.

Lemma created_settled s v w w' :
  tagged w -> created s v noop w w' -> settled s v w'.
Proof.
  intros Ht Hc. split.
  - exists (fresh_store v noop). split; [by eapply created_lookup|done].
  - destruct Hc as (-> & _ & _ & _ & -> & _). intros e He Hs.
    specialize (Ht _ _ He Hs). lia.
Qed.

Lemma reachable_tagged w : reachable w -> tagged w.
Proof.
  induction 1 as [w (_ & _ & Hr)|w a w' Hw IH Hstep].
  - intros e s. rewrite Hr. by intros ?%elem_of_nil.
  - eapply tagged_effect; [|done]. apply step_effect; [|done].
    by apply reachable_wf.
Qed.

Lemma created_fallback s v w w' :
  reachable w -> created s v noop w w' -> fallback s v w'.
Proof.
  intros Hw Hc. apply settled_fallback.
  - eapply wf_created; [done|]. by apply reachable_wf.
  - eapply created_settled; [|done]. by apply reachable_tagged.
Qed.

(** ** The fallback branches *)

(** C1. Without [globalThis.window] both constructors, in both variants
    of the module, return a store with [ref] null (and [id] the empty
    string) without registering a listener; no listener is ever
    registered for that store, and all it ever calls a subscriber with is
    [startWith]: with [collectionStore] of firestore.ts, the empty array
    when the argument is [undefined] and the argument otherwise.  The
    functions of firestore.ts read the Firebase context first; they are
    taken where there is a context object, whatever its [firestore]. *)
Theorem ssr_fallback w startWith :
  reachable w -> window w = false ->
  (forall firestore ref, exists w',
     Explicit.docStore firestore ref startWith w =
       Ok ({| doc_subscribe := length (stores w); doc_ref := None; doc_id := "" |}, w') /\
     listeners w' = listeners w /\
     fallback (length (stores w)) startWith w') /\
  (forall (firestore : option Firestore) ref, context w = firestore ->
     exists w',
       docStore ref startWith w =
         Ok ({| doc_subscribe := length (stores w); doc_ref := None; doc_id := "" |}, w') /\
       listeners w' = listeners w /\
       fallback (length (stores w)) startWith w') /\
  (forall firestore ref, exists w',
     Explicit.collectionStore firestore ref startWith w =
       Ok ({| col_subscribe := length (stores w); col_ref := None |}, w') /\
     listeners w' = listeners w /\
     fallback (length (stores w)) startWith w') /\
  (forall (firestore : option Firestore) ref, context w = firestore ->
     exists w',
       collectionStore ref startWith w =
         Ok ({| col_subscribe := length (stores w); col_ref := None |}, w') /\
       listeners w' = listeners w /\
       (startWith = VUndefined -> fallback (length (stores w)) (VArr []) w') /\
       (startWith <> VUndefined -> fallback (length (stores w)) startWith w')).
Proof.
  intros Hr Hw.
  assert (Hfb : forall v, fallback (length (stores w)) v
            (set_stores (stores w ++ [fresh_store v noop]) w)).
  { intros v. by apply (created_fallback _ _ w). }
  split; [|split; [|split]].
  - intros firestore ref. eexists. by rewrite docStore_ssr.
  - intros firestore ref Hc. eexists.
    by rewrite (docStore_explicit _ _ _ _ Hc), docStore_ssr.
  - intros firestore ref. eexists. by rewrite collectionStore_ssr.
  - intros firestore ref Hc. eexists.
    rewrite (collectionStore_explicit _ _ _ _ Hc), collectionStore_ssr by done.
    split; [done|]. split; [done|]. split.
    + intros ->. apply Hfb.
    + intros Hne. destruct startWith; try done; apply Hfb.
Qed.

(** C2. With a window but without Firestore instance both constructors,
    in both variants of the module, return (they do not throw) after one
    warning on the console, without registering a listener; the store has
    [ref] null, no listener is ever registered for it, and all it ever
    calls a subscriber with is null ([docStore]) or the empty array
    ([collectionStore]). *)
Theorem missing_sdk_fallback w startWith :
  reachable w -> window w = true ->
  (forall ref, exists w',
     Explicit.docStore None ref startWith w =
       Ok ({| doc_subscribe := length (stores w); doc_ref := None; doc_id := "" |}, w') /\
     (context w = None ->
      docStore ref startWith w =
       Ok ({| doc_subscribe := length (stores w); doc_ref := None; doc_id := "" |}, w')) /\
     console w' = console w ++ [not_initialized] /\
     listeners w' = listeners w /\
     fallback (length (stores w)) VNull w') /\
  (forall ref, exists w',
     Explicit.collectionStore None ref startWith w =
       Ok ({| col_subscribe := length (stores w); col_ref := None |}, w') /\
     (context w = None ->
      collectionStore ref startWith w =
       Ok ({| col_subscribe := length (stores w); col_ref := None |}, w')) /\
     console w' = console w ++ [not_initialized] /\
     listeners w' = listeners w /\
     fallback (length (stores w)) (VArr []) w').
Proof.
  intros Hr Hw.
  assert (Hfb : forall v, fallback (length (stores w)) v
            (set_stores (stores w ++ [fresh_store v noop])
               (set_console (console w ++ [not_initialized]) w))).
  { intros v. by apply (created_fallback _ _ w). }
  split.
  - intros ref. eexists. rewrite docStore_missing by done.
    split; [done|]. split; [|done].
    intros Hc. by rewrite (docStore_explicit _ _ _ _ Hc), docStore_missing.
  - intros ref. eexists. rewrite collectionStore_missing by done.
    split; [done|]. split; [|done].
    intros Hc. by rewrite (collectionStore_explicit _ _ _ _ Hc), collectionStore_missing.
Qed.

(** C9. For the same arguments [docStore] makes a store of null when
    there is a window but no Firestore instance, and a store of
    [startWith] when there is no window: the values differ unless
    [startWith] is null. *)
Theorem startWith_discarded (w_sdk w_ssr : world) ref startWith :
  reachable w_sdk -> reachable w_ssr ->
  window w_sdk = true -> window w_ssr = false ->
  exists d w' d' w'',
    Explicit.docStore None ref startWith w_sdk = Ok (d, w') /\
    (context w_sdk = None -> docStore ref startWith w_sdk = Ok (d, w')) /\
    Explicit.docStore None ref startWith w_ssr = Ok (d', w'') /\
    (context w_ssr = None -> docStore ref startWith w_ssr = Ok (d', w'')) /\
    st_value <$> stores w' !! doc_subscribe d = Some VNull /\
    st_value <$> stores w'' !! doc_subscribe d' = Some startWith /\
    fallback (doc_subscribe d) VNull w' /\
    fallback (doc_subscribe d') startWith w'' /\
    (startWith <> VNull ->
       st_value <$> stores w' !! doc_subscribe d <>
       st_value <$> stores w'' !! doc_subscribe d').
Proof.
  intros Hr Hr' Hw Hw'.
  eexists _, _, _, _. split; [by apply docStore_missing|].
  split. { intros Hc. by rewrite (docStore_explicit _ _ _ _ Hc), docStore_missing. }
  split; [by apply docStore_ssr|].
  split. { intros Hc. by rewrite (docStore_explicit _ _ _ _ Hc), docStore_ssr. }
  simpl. rewrite !lookup_app_r, !Nat.sub_diag by done. simpl.
  do 2 (split; [done|]).
  split; [by apply (created_fallback _ _ w_sdk)|].
  split; [by apply (created_fallback _ _ w_ssr)|].
  intros Hne [= Heq]. by apply Hne.
Qed.

(** ** Snapshots *)

Lemma deliver_doc_active w l docRef s :
  wf w ->
  listeners w !! l = Some {| l_registration := OnDoc docRef s; l_active := true |} ->
  exists st, stores w !! s = Some st /\ st_start st = DocStart docRef /\
    st_stop st = Some StopUnsubscribe /\ st_unsubscribe st = Some l /\
    forall snapshot,
      deliver_doc l snapshot w =
        Ok (tt, set_to s (nullish (ds_data snapshot) VNull) st w).
Proof.
  intros Hwf Hl. destruct (wf_listeners _ Hwf _ _ Hl) as (st & Hs & Hfor & Hact).
  destruct (Hact eq_refl) as [Hstop Hun]. exists st. simpl in *.
  do 4 (split; [done|]). intros snapshot.
  unfold deliver_doc, doc_callback. rewrite Hl. by apply store_set_eq.
Qed.

Lemma deliver_query_active w l colRef s :
  wf w ->
  listeners w !! l = Some {| l_registration := OnQuery colRef s; l_active := true |} ->
  exists st, stores w !! s = Some st /\ st_start st = ColStart colRef /\
    st_stop st = Some StopUnsubscribe /\ st_unsubscribe st = Some l /\
    forall snapshot,
      deliver_query l snapshot w =
        Ok (tt, set_to s (VArr (map record_of (docs snapshot))) st w).
Proof.
  intros Hwf Hl. destruct (wf_listeners _ Hwf _ _ Hl) as (st & Hs & Hfor & Hact).
  destruct (Hact eq_refl) as [Hstop Hun]. exists st. simpl in *.
  do 4 (split; [done|]). intros snapshot.
  unfold deliver_query, collection_callback. rewrite Hl. by apply store_set_eq.
Qed.

Lemma lookup_set_to s v st w :
  stores w !! s = Some st ->
  stores (set_to s v st w) !! s = Some (set_value v st).
Proof.
  intros Hs. rewrite stores_set_to by done.
  by apply list_lookup_insert_eq, lookup_lt_Some with st.
Qed.

(** [{ id: s.id, ref: s.ref, ...s.data() }], property by property. *)
Lemma record_of_lookup d :
  exists props, record_of d = VObj props /\
    forall k, props !! k =
      match qds_data d !! k with
      | Some x => Some x
      | None =>
          if decide (k = "ref") then Some (VRef (qds_ref d))
          else if decide (k = "id") then Some (VStr (qds_id d))
          else None
      end.
Proof.
  eexists. split; [done|]. intros k. unfold spread.
  rewrite lookup_union, !lookup_insert, lookup_empty.
  destruct (qds_data d !! k) as [x|]; simpl.
  - by repeat case_decide.
  - repeat case_decide; simplify_eq; done.
Qed.

Lemma safe_not_equal_object a b :
  is_object b = true -> safe_not_equal a b = true.
Proof. unfold safe_not_equal. by destruct a, b. Qed.

(** [data ?? null] is [data], but null when [data] is undefined. *)
Lemma nullish_null a :
  (a = VUndefined -> nullish a VNull = VNull) /\
  (a <> VUndefined -> nullish a VNull = a).
Proof. by destruct a. Qed.

(** C4. A snapshot delivered to the listener of a store sets the value of
    the store: for a [collectionStore] to the array of the records
    [{ id: s.id, ref: s.ref, ...s.data() }] of [snapshot.docs], one for
    one and in the same order; for a [docStore] to [snapshot.data()],
    with null for undefined. *)
Theorem snapshot_mapping w l s :
  reachable w ->
  (forall colRef snapshot,
     listeners w !! l =
       Some {| l_registration := OnQuery colRef s; l_active := true |} ->
     exists w' st',
       deliver_query l snapshot w = Ok (tt, w') /\
       stores w' !! s = Some st' /\
       st_start st' = ColStart colRef /\
       st_value st' = VArr (record_of <$> docs snapshot) /\
       (forall i, (record_of <$> docs snapshot) !! i =
                    record_of <$> docs snapshot !! i) /\
       (forall d, exists props, record_of d = VObj props /\
          forall k, props !! k =
            match qds_data d !! k with
            | Some x => Some x
            | None =>
                if decide (k = "ref") then Some (VRef (qds_ref d))
                else if decide (k = "id") then Some (VStr (qds_id d))
                else None
            end)) /\
  (forall docRef snapshot,
     listeners w !! l =
       Some {| l_registration := OnDoc docRef s; l_active := true |} ->
     exists w' st',
       deliver_doc l snapshot w = Ok (tt, w') /\
       stores w' !! s = Some st' /\
       st_start st' = DocStart docRef /\
       (ds_data snapshot = VUndefined -> st_value st' = VNull) /\
       (ds_data snapshot <> VUndefined -> st_value st' = ds_data snapshot)).
Proof.
  intros Hwf%reachable_wf. split.
  - intros colRef snapshot Hl.
    destruct (deliver_query_active _ _ _ _ Hwf Hl) as (st & Hs & Hstart & _ & _ & Hd).
    eexists _, _. split; [apply Hd|]. split; [by apply lookup_set_to|].
    split; [done|]. split; [done|]. split; [apply list_lookup_fmap|].
    apply record_of_lookup.
  - intros docRef snapshot Hl.
    destruct (deliver_doc_active _ _ _ _ Hwf Hl) as (st & Hs & Hstart & _ & _ & Hd).
    eexists _, _. split; [apply Hd|]. split; [by apply lookup_set_to|].
    split; [done|]. apply nullish_null.
Qed.

(** [set] compares with [safe_not_equal]: it does nothing exactly when the
    store holds the new value and that value is not an object. *)
Lemma safe_not_equal_false a b :
  safe_not_equal a b = false <-> a = b /\ primitive b.
Proof.
  split.
  - intros H. pose proof (safe_equal_eq _ _ H) as ->. split; [done|].
    by destruct b.
  - intros [-> Hp]. unfold safe_not_equal.
    destruct b; simpl in *; try done; by rewrite bool_decide_true.
Qed.

(** C5, as the module has it. A snapshot delivered to the listener of a
    [docStore] makes the store call its subscribers with
    [snapshot.data()], but with null when that is undefined, and call
    none of them when that value is not an object and is the value the
    store already holds.  One delivered to the listener of a
    [collectionStore] makes it call them with an array that has one
    record for each document, in the order of [snapshot.docs]: the
    properties of the record are those of the document's data, and [ref]
    and [id], the [ref] and the [id] of the document, where the data has
    no property of that name. *)
Theorem forwarding w l s :
  reachable w ->
  (forall docRef snapshot,
     listeners w !! l =
       Some {| l_registration := OnDoc docRef s; l_active := true |} ->
     exists st w' v,
       stores w !! s = Some st /\
       deliver_doc l snapshot w = Ok (tt, w') /\
       (ds_data snapshot = VUndefined -> v = VNull) /\
       (ds_data snapshot <> VUndefined -> v = ds_data snapshot) /\
       (st_value st = v /\ primitive v -> received w' = received w) /\
       (st_value st <> v \/ ~ primitive v ->
        received w' = received w ++ emissions s (st_subscribers st) v)) /\
  (forall colRef snapshot,
     listeners w !! l =
       Some {| l_registration := OnQuery colRef s; l_active := true |} ->
     exists st w' items,
       stores w !! s = Some st /\
       deliver_query l snapshot w = Ok (tt, w') /\
       received w' = received w ++
         emissions s (st_subscribers st) (VArr items) /\
       length items = length (docs snapshot) /\
       forall i d, docs snapshot !! i = Some d ->
         exists props,
           items !! i = Some (VObj props) /\
           forall k, props !! k =
             match qds_data d !! k with
             | Some x => Some x
             | None =>
                 if decide (k = "ref") then Some (VRef (qds_ref d))
                 else if decide (k = "id") then Some (VStr (qds_id d))
                 else None
             end).
Proof.
  intros Hwf%reachable_wf. split.
  - intros docRef snapshot Hl.
    destruct (deliver_doc_active _ _ _ _ Hwf Hl) as (st & Hs & _ & Hstop & _ & Hd).
    exists st. eexists. exists (nullish (ds_data snapshot) VNull).
    split; [done|]. split; [apply Hd|].
    destruct (nullish_null (ds_data snapshot)) as [H1 H2].
    split; [done|]. split; [done|].
    rewrite received_set_to. unfold announced. rewrite Hstop.
    destruct (safe_not_equal _ _) eqn:Hne.
    + split; [|done]. intros Heq%safe_not_equal_false. congruence.
    + apply safe_not_equal_false in Hne. split; [by rewrite app_nil_r|].
      intros [Hv|Hp]; [by destruct Hne|]. by destruct Hp, Hne.
  - intros colRef snapshot Hl.
    destruct (deliver_query_active _ _ _ _ Hwf Hl) as (st & Hs & _ & Hstop & _ & Hd).
    exists st. eexists. exists (record_of <$> docs snapshot).
    split; [done|]. split; [apply Hd|]. split.
    { rewrite received_set_to. unfold announced. rewrite Hstop.
      by rewrite safe_not_equal_object. }
    split; [apply length_fmap|].
    intros i d Hi. destruct (record_of_lookup d) as (props & Hp & Hlook).
    exists props. split; [|done].
    by rewrite list_lookup_fmap, Hi, <- Hp.
Qed.

(** ** Activation and teardown *)







(** C7. While a store of the live branch has subscribers, the variable
    [unsubscribe] holds the unsubscribe function of the one listener that
    is registered for it. The unsubscriber of a subscriber never throws;
    when it leaves the store without subscribers that unsubscribe
    function has been called: the listener is cancelled, no listener
    remains registered for the store and a snapshot for it changes
    nothing; when subscribers remain no listener is touched. *)
Theorem teardown w s st r :
  reachable w ->
  stores w !! s = Some st ->
  registration_of s (st_start st) = Some r ->
  st_subscribers st <> [] ->
  exists l,
    st_unsubscribe st = Some l /\
    listeners w !! l = Some {| l_registration := r; l_active := true |} /\
    (forall l' li, listeners w !! l' = Some li -> l_active li = true ->
       target (l_registration li) = s -> l' = l) /\
    forall id, exists w' st',
      unsubscribe (s, id) w = Ok (tt, w') /\
      stores w' !! s = Some st' /\
      st_subscribers st' = remaining id st /\
      (remaining id st <> [] -> listeners w' = listeners w) /\
      (remaining id st = [] ->
         listeners w' = alter deactivate l (listeners w) /\
         listeners w' !! l = Some {| l_registration := r; l_active := false |} /\
         (forall l' li, listeners w' !! l' = Some li ->
            target (l_registration li) = s -> l_active li = false) /\
         (forall snapshot, deliver_doc l snapshot w' = Ok (tt, w')) /\
         (forall snapshot, deliver_query l snapshot w' = Ok (tt, w'))).
Proof.
  intros Hwf%reachable_wf Hs Hr Hsubs.
  destruct (wf_stores _ Hwf _ _ Hs) as [Ha Hb].
  destruct (st_stop st) as [stop|] eqn:Hstop; [|by destruct Ha as [Ha _]; specialize (Ha eq_refl)].
  rewrite Hr in Hb. destruct Hb as (-> & l & Hun & Hl).
  exists l. split; [done|]. split; [done|].
  assert (Huniq : forall l' li, listeners w !! l' = Some li -> l_active li = true ->
            target (l_registration li) = s -> l' = l).
  { intros l' li Hl' Hon Ht.
    destruct (wf_listeners _ Hwf _ _ Hl') as (st' & Hs' & _ & Hact).
    rewrite Ht in Hs'. destruct (Hact Hon) as [_ Hun']. congruence. }
  split; [done|]. intros id.
  assert (Hwf' : wf (set_stores (<[s:=unsubscribed id st]> (stores w))
                       (set_listeners (cancelled id st (listeners w)) w))).
  { by eapply (wf_unsubscribed s id st w). }
  eexists _, _. split.
  { apply unsubscribe_eq; [done|]. rewrite Hun. eauto. }
  split. { simpl. by apply list_lookup_insert_eq, lookup_lt_Some with st. }
  split; [done|]. simpl. unfold cancelled. rewrite Hstop, Hun. split.
  - intros Hrem. by destruct (remaining id st).
  - intros Hrem. rewrite Hrem.
    assert (Hl' : alter deactivate l (listeners w) !! l =
                    Some {| l_registration := r; l_active := false |}).
    { by rewrite list_lookup_alter_eq, Hl. }
    split; [done|]. split; [done|]. split; [|split].
    + intros l' li Hli Ht. destruct (decide (l' = l)) as [->|Hne].
      * rewrite Hl' in Hli. by injection Hli as <-.
      * rewrite list_lookup_alter_ne in Hli by done.
        destruct (l_active li) eqn:Hon; [|done]. by apply Huniq in Hli.
    + intros snapshot. eapply deliver_doc_inactive. simpl. exact Hl'.
    + intros snapshot. eapply deliver_query_inactive. simpl. exact Hl'.
Qed.

(** ** The derived store *)

Lemma ignore_eq {A} (m : M A) w a w' :
  m w = Ok (a, w') -> ignore m w = Ok (tt, w').
Proof. intros H. unfold ignore, bind. by rewrite H. Qed.

(** C8. [userDataStore] is [derived] from the store [userStore] returns,
    with a callback that, given no user, calls [set] with null and
    returns nothing to clean up, and that, given a user, subscribes [set]
    to [docStore] of [collectionPath/uid], with "users" for an omitted
    [collectionPath], and returns the unsubscriber. In the live branch
    that registers a listener for the document, calls [set] with
    undefined at once and with [snapshot.data() ?? null] when the
    snapshot arrives, and the unsubscriber cancels the listener. *)
Theorem userDataStore_composition {S : Type} (userStore : M S)
    collectionPath w user_store w1 :
  userStore w = Ok (user_store, w1) ->
  exists d,
  userDataStore userStore collectionPath w = Ok (d, w1) /\
  derived_from d = user_store /\
  (forall set w2,
     derived_fn d None set w2 = Ok (None, called None set VNull w2)) /\
  forall user,
    let fullPath := default "users" collectionPath +:+ "/" +:+ uid user in
    (forall set w2,
       derived_fn d (Some user) set w2 =
         (let* store := docStore (inl fullPath) VUndefined in
          let* unsubscriber := subscribe (doc_subscribe store) set in
          ret (Some unsubscriber)) w2) /\
    (forall set firestore docRef w2,
       reachable w2 -> window w2 = true -> context w2 = Some firestore ->
       doc firestore fullPath = Ok docRef ->
       let s := length (stores w2) in
       let l := length (listeners w2) in
       exists w3 st,
         derived_fn d (Some user) set w2 = Ok (Some (s, 0), w3) /\
         reachable w3 /\
         stores w3 !! s = Some st /\
         st_value st = VUndefined /\
         st_subscribers st = [(0, set)] /\
         st_start st = DocStart docRef /\
         listeners w3 = listeners w2 ++
           [ {| l_registration := OnDoc docRef s; l_active := true |} ] /\
         received w3 = received w2 ++ heard (Some s) set VUndefined /\
         (forall snapshot, exists w4,
            deliver_doc l snapshot w3 = Ok (tt, w4) /\
            received w4 = received w3 ++
              heard (Some s) set (nullish (ds_data snapshot) VNull)) /\
         (exists w5,
            unsubscribe (s, 0) w3 = Ok (tt, w5) /\
            listeners w5 = listeners w2 ++
              [ {| l_registration := OnDoc docRef s; l_active := false |} ])).
Proof.
  intros Hu. eexists. split.
  { unfold userDataStore, bind. rewrite Hu. done. }
  split; [done|]. split; [done|].
  intros user fullPath. split; [done|].
  intros set firestore docRef w2 Hr Hw Hc Hdoc s l.
  assert (Hd : docStore (inl fullPath) VUndefined w2 =
    Ok ({| doc_subscribe := s; doc_ref := Some docRef; doc_id := ref_id docRef |},
        set_stores (stores w2 ++ [fresh_store VUndefined (DocStart docRef)]) w2)).
  { by rewrite (docStore_explicit _ _ _ _ Hc), docStore_path, Hdoc. }
  set (w2' := set_stores (stores w2 ++ [fresh_store VUndefined (DocStart docRef)]) w2) in *.
  assert (Hs : stores w2' !! s = Some (fresh_store VUndefined (DocStart docRef))).
  { simpl. by rewrite lookup_app_r, Nat.sub_diag. }
  pose proof (subscribe_eq s set w2' _ Hs) as Hsub.
  eexists _, _. split.
  { simpl. fold fullPath. rewrite Hd. simpl. by rewrite Hsub. }
  assert (Hr3 : reachable (called (Some s) set VUndefined
     (set_stores (<[s:=subscribed s set (length (listeners w2'))
                        (fresh_store VUndefined (DocStart docRef))]> (stores w2'))
        (set_listeners (listeners w2' ++
           registered s (fresh_store VUndefined (DocStart docRef))) w2')))).
  { eapply (reachable_step w2' (Subscribe s set)); [|by apply ignore_eq in Hsub].
    eapply (reachable_step w2 (CallDocStore (inl fullPath) VUndefined)); [done|].
    by apply ignore_eq in Hd. }
  split; [exact Hr3|].
  rewrite (proj1 (proj2 (proj2 (proj2 (called_fields _ _ _ _))))).
  rewrite (proj2 (proj2 (proj2 (proj2 (called_fields _ _ _ _))))).
  rewrite received_called. simpl.
  split. { apply list_lookup_insert_eq. rewrite length_app. simpl. lia. }
  do 5 (split; [done|]). split.
  - intros snapshot.
    edestruct (deliver_doc_active _ l docRef s (reachable_wf _ Hr3))
      as (st & Hst & _ & Hstop & _ & Hdel).
    { rewrite (proj2 (proj2 (proj2 (proj2 (called_fields _ _ _ _))))). simpl.
      by rewrite lookup_app_r, Nat.sub_diag. }
    rewrite (proj1 (proj2 (proj2 (proj2 (called_fields _ _ _ _))))) in Hst.
    simpl in Hst. rewrite list_lookup_insert_eq in Hst
      by (rewrite length_app; simpl; lia).
    injection Hst as <-.
    eexists. split; [apply Hdel|]. rewrite received_set_to, received_called.
    f_equal. unfold announced. simpl.
    replace (safe_not_equal VUndefined (nullish (ds_data snapshot) VNull))
      with true by by destruct (ds_data snapshot).
    unfold emissions. simpl. by rewrite app_nil_r.
  - eexists. split.
    + apply unsubscribe_eq.
      * rewrite (proj1 (proj2 (proj2 (proj2 (called_fields _ _ _ _))))). simpl.
        apply list_lookup_insert_eq. rewrite length_app. simpl. lia.
      * simpl. eauto.
    + simpl. rewrite (proj2 (proj2 (proj2 (proj2 (called_fields _ _ _ _))))). simpl.
      unfold cancelled, remaining. simpl.
      rewrite alter_app_r_alt by done. by rewrite Nat.sub_diag.
Qed.

(** The reads are runs of steps: they stay among the reachable worlds. *)
Lemma reachable_getDocValue firestore ref startWith w v w' :
  reachable w ->
  Explicit.getDocValue firestore ref startWith w = Ok (v, w') ->
  reachable w'.
Proof.
  intros Hr (d & w1 & H1 & (c & w2 & H2 & (u & w3 & H3 & ([] & w4 & H4 & H5)%bind_Ok)%bind_Ok)%bind_Ok)%bind_Ok.
  injection H5 as _ <-.
  eapply (reachable_step w3 (Unsubscribe u)); [|exact H4].
  eapply (reachable_step w2 (Subscribe (doc_subscribe d) (Assign c)));
    [|by apply ignore_eq in H3].
  eapply (reachable_step w1 LetValue); [|by apply ignore_eq in H2].
  eapply (reachable_step w (CallExplicitDocStore firestore ref startWith));
    [done|by apply ignore_eq in H1].
Qed.

Lemma reachable_getCollectionValue firestore ref startWith w v w' :
  reachable w ->
  Explicit.getCollectionValue firestore ref startWith w = Ok (v, w') ->
  reachable w'.
Proof.
  intros Hr (d & w1 & H1 & (c & w2 & H2 & (u & w3 & H3 & ([] & w4 & H4 & H5)%bind_Ok)%bind_Ok)%bind_Ok)%bind_Ok.
  injection H5 as _ <-.
  eapply (reachable_step w3 (Unsubscribe u)); [|exact H4].
  eapply (reachable_step w2 (Subscribe (col_subscribe d) (Assign c)));
    [|by apply ignore_eq in H3].
  eapply (reachable_step w1 LetValue); [|by apply ignore_eq in H2].
  eapply (reachable_step w
    (CallExplicitCollectionStore firestore ref (default_param startWith VUndefined)));
    [done|by apply ignore_eq in H1].
Qed.

(** ** More on the constructors *)

(** X1. A constructor of the variant that is given the instance throws
    only in the live branch, when it is given a path that [doc] (or
    [collection]) rejects, and then with the error of the SDK.  A
    constructor of firestore.ts throws in that case too, and otherwise
    only when reading the Firebase context throws, with that error and
    on the server as well: the context is read before the window is
    looked at.  In every other case the constructors return. *)
Theorem constructors_throw_with_sdk firestore startWith w e :
  (forall ref,
     Explicit.docStore firestore ref startWith w = Throw e <->
     window w = true /\
     exists f path, firestore = Some f /\ ref = inl path /\ doc f path = Throw e) /\
  (forall ref,
     docStore ref startWith w = Throw e <->
     context w = NoContext e \/
     window w = true /\
     exists f path, context w = Some f /\ ref = inl path /\ doc f path = Throw e) /\
  (forall ref,
     Explicit.collectionStore firestore ref startWith w = Throw e <->
     window w = true /\
     exists f path,
       firestore = Some f /\ ref = inl path /\ collection f path = Throw e) /\
  (forall ref,
     collectionStore ref startWith w = Throw e <->
     context w = NoContext e \/
     window w = true /\
     exists f path,
       context w = Some f /\ ref = inl path /\ collection f path = Throw e).
Proof.
  assert (Hd : forall fs ref,
     Explicit.docStore fs ref startWith w = Throw e <->
     window w = true /\
     exists f path, fs = Some f /\ ref = inl path /\ doc f path = Throw e).
  { intros fs ref. destruct (window w) eqn:Hw.
    - destruct fs as [f|].
      + destruct ref as [path|docRef].
        * rewrite docStore_path by done. split.
          -- destruct (doc f path) eqn:Hdoc; [done|]. intros [= ->].
             split; [done|]. by exists f, path.
          -- intros (_ & f' & path' & [= <-] & [= <-] & ->). done.
        * rewrite docStore_reference by done. split; [done|].
          by intros (_ & f' & path' & _ & [=] & _).
      + rewrite docStore_missing by done. split; [done|].
        by intros (_ & f' & path' & [=] & _).
    - rewrite docStore_ssr by done. split; [done|]. by intros [[=] _]. }
  assert (Hc : forall fs ref sw,
     Explicit.collectionStore fs ref sw w = Throw e <->
     window w = true /\
     exists f path, fs = Some f /\ ref = inl path /\ collection f path = Throw e).
  { intros fs ref sw. destruct (window w) eqn:Hw.
    - destruct fs as [f|].
      + destruct ref as [path|colRef].
        * rewrite collectionStore_path by done. split.
          -- destruct (collection f path) eqn:Hcol; [done|]. intros [= ->].
             split; [done|]. by exists f, path.
          -- intros (_ & f' & path' & [= <-] & [= <-] & ->). done.
        * rewrite collectionStore_reference by done. split; [done|].
          by intros (_ & f' & path' & _ & [=] & _).
      + rewrite collectionStore_missing by done. split; [done|].
        by intros (_ & f' & path' & [=] & _).
    - rewrite collectionStore_ssr by done. split; [done|]. by intros [[=] _]. }
  split; [apply Hd|]. split.
  { intros ref. destruct (context w) as [fs|e'] eqn:Hctx.
    - rewrite (docStore_explicit fs), Hd by done. split.
      + intros (Hw & f & path & -> & H). right. split; [done|]. by exists f, path.
      + intros [[=]|(Hw & f & path & [= ->] & H)]. split; [done|]. by exists f, path.
    - rewrite (docStore_no_context e') by done. split.
      + intros [= ->]. by left.
      + by intros [[= ->]|(_ & f & path & [=] & _)]. }
  split; [intros ref; apply Hc|].
  intros ref. destruct (context w) as [fs|e'] eqn:Hctx.
  - rewrite (collectionStore_explicit fs), Hc by done. split.
    + intros (Hw & f & path & -> & H). right. split; [done|]. by exists f, path.
    + intros [[=]|(Hw & f & path & [= ->] & H)]. split; [done|]. by exists f, path.
  - rewrite (collectionStore_no_context e') by done. split.
    + intros [= ->]. by left.
    + by intros [[= ->]|(_ & f & path & [=] & _)].
Qed.

(** X2. The [id] of a document store is the [id] of its [ref], and the
    empty string when [ref] is null; [ref] is null exactly in the two
    fallback branches. The same holds of the [ref] of a collection
    store. *)
Theorem store_ref_and_id firestore startWith w :
  (forall ref d w',
     Explicit.docStore firestore ref startWith w = Ok (d, w') ->
     doc_id d = match doc_ref d with
                | Some docRef => ref_id docRef
                | None => ""
                end /\
     (doc_ref d = None <-> window w = false \/ firestore = None)) /\
  (forall ref d w',
     docStore ref startWith w = Ok (d, w') ->
     doc_id d = match doc_ref d with
                | Some docRef => ref_id docRef
                | None => ""
                end /\
     (doc_ref d = None <-> window w = false \/ context w = None)) /\
  (forall ref d w',
     Explicit.collectionStore firestore ref startWith w = Ok (d, w') ->
     (col_ref d = None <-> window w = false \/ firestore = None)) /\
  (forall ref d w',
     collectionStore ref startWith w = Ok (d, w') ->
     (col_ref d = None <-> window w = false \/ context w = None)).
Proof.
  assert (Hd : forall fs ref d w',
     Explicit.docStore fs ref startWith w = Ok (d, w') ->
     doc_id d = match doc_ref d with
                | Some docRef => ref_id docRef
                | None => ""
                end /\
     (doc_ref d = None <-> window w = false \/ fs = None)).
  { intros fs ref d w'. destruct (window w) eqn:Hw.
    + destruct fs as [f|].
      * destruct ref as [path|docRef].
        -- rewrite docStore_path by done. destruct (doc f path); [|done].
           intros [= <- _]. simpl. split; [done|]. split; [done|]. by intros [|].
        -- rewrite docStore_reference by done.
           intros [= <- _]. simpl. split; [done|]. split; [done|]. by intros [|].
      * rewrite docStore_missing by done. intros [= <- _]. simpl.
        split; [done|]. split; [by right|done].
    + rewrite docStore_ssr by done. intros [= <- _]. simpl.
      split; [done|]. split; [by left|done]. }
  assert (Hc : forall fs ref sw d w',
     Explicit.collectionStore fs ref sw w = Ok (d, w') ->
     (col_ref d = None <-> window w = false \/ fs = None)).
  { intros fs ref sw d w'. destruct (window w) eqn:Hw.
    + destruct fs as [f|].
      * destruct ref as [path|colRef].
        -- rewrite collectionStore_path by done. destruct (collection f path); [|done].
           intros [= <- _]. simpl. split; [done|]. by intros [|].
        -- rewrite collectionStore_reference by done.
           intros [= <- _]. simpl. split; [done|]. by intros [|].
      * rewrite collectionStore_missing by done. intros [= <- _]. simpl.
        split; [by right|done].
    + rewrite collectionStore_ssr by done. intros [= <- _]. simpl.
      split; [by left|done]. }
  split; [apply Hd|]. split.
  { intros ref d w' (fs & Hctx & H)%docStore_Ok. rewrite Hctx.
    destruct (Hd _ _ _ _ H) as [Hid Href]. split; [done|]. rewrite Href.
    split; (intros [?|?]; [by left|right; congruence]). }
  split; [intros ref; apply Hc|].
  intros ref d w' (fs & Hctx & H)%collectionStore_Ok. rewrite Hctx.
  rewrite (Hc _ _ _ _ _ H).
  split; (intros [?|?]; [by left|right; congruence]).
Qed.

(** X3. A constructor warns exactly when there is a window and no
    Firestore instance: the window is looked at first, so on the server
    nothing is written to the console, with or without an instance. *)
Theorem warning_only_with_window firestore startWith w :
  (forall ref d w',
     Explicit.docStore firestore ref startWith w = Ok (d, w') ->
     console w' = console w ++
       match window w, firestore with
       | true, None => [not_initialized]
       | _, _ => []
       end) /\
  (forall ref d w',
     docStore ref startWith w = Ok (d, w') ->
     console w' = console w ++
       match window w, context w with
       | true, Context None => [not_initialized]
       | _, _ => []
       end) /\
  (forall ref d w',
     Explicit.collectionStore firestore ref startWith w = Ok (d, w') ->
     console w' = console w ++
       match window w, firestore with
       | true, None => [not_initialized]
       | _, _ => []
       end) /\
  (forall ref d w',
     collectionStore ref startWith w = Ok (d, w') ->
     console w' = console w ++
       match window w, context w with
       | true, Context None => [not_initialized]
       | _, _ => []
       end).
Proof.
  pose (warned := fun instance : option Firestore =>
    console w ++
      match window w, instance with
      | true, None => [not_initialized]
      | _, _ => []
      end).
  assert (Hd : forall fs ref d w',
     Explicit.docStore fs ref startWith w = Ok (d, w') -> console w' = warned fs).
  { intros fs ref d w'. unfold warned. destruct (window w) eqn:Hw.
    + destruct fs as [f|].
      * destruct ref as [path|docRef].
        -- rewrite docStore_path by done. destruct (doc f path); [|done].
           intros [= _ <-]; simpl; by rewrite ?app_nil_r.
        -- rewrite docStore_reference by done. intros [= _ <-]; simpl; by rewrite ?app_nil_r.
      * rewrite docStore_missing by done. intros [= _ <-]; simpl; by rewrite ?app_nil_r.
    + rewrite docStore_ssr by done. intros [= _ <-]; simpl; by rewrite ?app_nil_r. }
  assert (Hc : forall fs ref sw d w',
     Explicit.collectionStore fs ref sw w = Ok (d, w') -> console w' = warned fs).
  { intros fs ref sw d w'. unfold warned. destruct (window w) eqn:Hw.
    + destruct fs as [f|].
      * destruct ref as [path|colRef].
        -- rewrite collectionStore_path by done. destruct (collection f path); [|done].
           intros [= _ <-]; simpl; by rewrite ?app_nil_r.
        -- rewrite collectionStore_reference by done. intros [= _ <-]; simpl; by rewrite ?app_nil_r.
      * rewrite collectionStore_missing by done. intros [= _ <-]; simpl; by rewrite ?app_nil_r.
    + rewrite collectionStore_ssr by done. intros [= _ <-]; simpl; by rewrite ?app_nil_r. }
  split; [apply Hd|]. split.
  { intros ref d w' (fs & Hctx & H)%docStore_Ok. rewrite Hctx.
    by rewrite (Hd _ _ _ _ H). }
  split; [intros ref; apply Hc|].
  intros ref d w' (fs & Hctx & H)%collectionStore_Ok. rewrite Hctx.
  by rewrite (Hc _ _ _ _ _ H).
Qed.

(** ** More on subscribers and listeners *)

(** X4. At any time a listener is registered for a store exactly when the
    store has subscribers and was made in the live branch, and there is
    never a second one. *)
Theorem listener_while_subscribed w s st :
  reachable w -> stores w !! s = Some st ->
  ((exists l li, listeners w !! l = Some li /\ l_active li = true /\
      target (l_registration li) = s) <->
   st_subscribers st <> [] /\ st_start st <> noop) /\
  (forall l l' li li',
     listeners w !! l = Some li -> l_active li = true ->
     target (l_registration li) = s ->
     listeners w !! l' = Some li' -> l_active li' = true ->
     target (l_registration li') = s -> l = l').
Proof.
  intros Hwf%reachable_wf Hs. destruct (wf_stores _ Hwf _ _ Hs) as [Ha Hb].
  split; [split|].
  - intros (l & li & Hl & Hon & Ht).
    destruct (wf_listeners _ Hwf _ _ Hl) as (st' & Hs' & Hfor & Hact).
    rewrite Ht in Hs'. simplify_eq. destruct (Hact Hon) as [Hstop _]. split.
    + intros Hsubs. apply Ha in Hsubs. congruence.
    + destruct (l_registration li); simpl in Hfor; congruence.
  - intros [Hsubs Hstart].
    destruct (st_stop st) as [stop|] eqn:Hstop;
      [|by destruct Ha as [Ha _]; specialize (Ha eq_refl)].
    destruct (registration_of s (st_start st)) as [r|] eqn:Hr;
      [|by destruct (st_start st)].
    destruct Hb as (_ & l & _ & Hl). exists l, {| l_registration := r; l_active := true |}.
    split; [done|]. split; [done|]. by apply registration_of_Some in Hr as [? _].
  - intros l l' li li' Hl Hon Ht Hl' Hon' Ht'.
    destruct (wf_listeners _ Hwf _ _ Hl) as (st1 & Hs1 & _ & Hact).
    destruct (wf_listeners _ Hwf _ _ Hl') as (st2 & Hs2 & _ & Hact').
    rewrite Ht in Hs1. rewrite Ht' in Hs2. simplify_eq.
    destruct (Hact Hon) as [_ H1]. destruct (Hact' Hon') as [_ H2]. congruence.
Qed.

Lemma remaining_unsubscribed id st :
  remaining id (unsubscribed id st) = remaining id st.
Proof.
  unfold remaining, unsubscribed. simpl. unfold remaining.
  rewrite list_filter_filter. apply list_filter_iff. intros p. tauto.
Qed.

(** X5. The unsubscriber can be called again.  After the first call the
    subscriber is no longer among those of the store, and the [stop] of
    the store is cleared when none is left; the second call returns and
    leaves the stores, the listeners, the console and the calls of the
    observers as they are. *)
Theorem unsubscriber_twice w u w' :
  reachable w -> unsubscribe u w = Ok (tt, w') ->
  unsubscribe u w' = Ok (tt, w') /\
  forall st', stores w' !! u.1 = Some st' ->
    (forall run, (u.2, run) ∉ st_subscribers st') /\
    (st_subscribers st' = [] -> st_stop st' = None).
Proof.
  intros Hr Hu.
  assert (Hwf' : wf w').
  { apply reachable_wf. by apply (reachable_step w (Unsubscribe u)). }
  apply reachable_wf in Hr as Hwf. destruct u as [s id].
  destruct (stores w !! s) as [st|] eqn:Hs;
    [|by rewrite unsubscribe_missing in Hu].
  rewrite (unsubscribe_eq _ _ _ _ Hs) in Hu by by eapply wf_unsubscribe_defined.
  injection Hu as <-.
  assert (Hlt : s < length (stores w)) by by eapply lookup_lt_Some.
  split.
  - erewrite unsubscribe_eq; simpl.
    2: { by apply list_lookup_insert_eq. }
    2: { simpl. destruct (remaining id st); [done|].
         by eapply wf_unsubscribe_defined. }
    apply ok_eq; [done|]. apply world_eq; simpl; try done.
    + rewrite list_insert_insert_eq. f_equal.
      unfold unsubscribed at 1. rewrite remaining_unsubscribed. simpl.
      unfold unsubscribed. by destruct (remaining id st).
    + unfold cancelled at 1. rewrite remaining_unsubscribed. simpl.
      unfold cancelled. by destruct (remaining id st).
  - intros st' Hs'. split.
    + simpl in Hs'. rewrite list_lookup_insert_eq in Hs' by done.
      injection Hs' as <-. simpl. intros run [Hne _]%list_elem_of_filter.
      by apply Hne.
    + intros Hnil. by apply (wf_stores _ Hwf' _ _ Hs').
Qed.

Lemma ids_fresh_effect w a w' : effect w a w' -> ids_fresh w -> ids_fresh w'.
Proof.
  intros He Hf.
  destruct He as [a s' v' n w' H| |cb v'|s' run st1 Hs|s' id st1 Hs
                 |l docRef s' st1 snap Hl Hs Hstart _
                 |l colRef s' st1 snap Hl Hs Hstart _|];
    intros s st p; simpl; try by apply Hf.
  - destruct H as (_ & -> & _). intros [H|[_ H]]%lookup_app_Some; [by eapply Hf|].
    destruct (s - length (stores w)); simplify_eq/=. by intros ?%elem_of_nil.
  - rewrite (proj1 (proj2 (proj2 (proj2 (called_fields _ _ _ _))))). by apply Hf.
  - rewrite (proj1 (proj2 (proj2 (proj2 (called_fields _ _ _ _))))). simpl.
    intros H. apply list_lookup_insert_Some in H as [(<- & <- & _)|[_ H]];
      [|by eapply Hf].
    simpl. intros [Hp| ->%list_elem_of_singleton]%elem_of_app; [|simpl; lia].
    specialize (Hf _ _ _ Hs Hp). lia.
  - intros H. apply list_lookup_insert_Some in H as [(<- & <- & _)|[_ H]];
      [|by eapply Hf].
    simpl. unfold remaining. intros [_ Hp]%list_elem_of_filter. by eapply Hf.
  - rewrite stores_set_to by done.
    intros H. apply list_lookup_insert_Some in H as [(<- & <- & _)|[_ H]];
      [|by eapply Hf]. simpl. by eapply Hf.
  - rewrite stores_set_to by done.
    intros H. apply list_lookup_insert_Some in H as [(<- & <- & _)|[_ H]];
      [|by eapply Hf]. simpl. by eapply Hf.
Qed.

Lemma reachable_ids_fresh w : reachable w -> ids_fresh w.
Proof.
  induction 1 as [w (Hs & _)|w a w' Hw IH Hstep].
  - intros s st p. by rewrite Hs.
  - eapply ids_fresh_effect; [|done]. apply step_effect; [|done].
    by apply reachable_wf.
Qed.

Lemma filter_fresh (l : list (nat * callback)) (n : nat) :
  (forall p, p ∈ l -> p.1 < n) -> filter (fun p => p.1 ≠ n) l = l.
Proof.
  induction l as [|p l IH]; intros H; [done|].
  rewrite filter_cons_True.
  - f_equal. apply IH. intros q Hq. apply H. by right.
  - specialize (H p (list_elem_of_here _ _)). lia.
Qed.

(** X6. Subscribing and then calling the unsubscriber that was returned
    leaves the store with the subscribers, the value and the state of
    activation it had; the subscriber was called once, with the value of
    the store; and when it was the only subscriber of a store of the live
    branch, the listener it registered has been cancelled. *)
Theorem subscribe_then_unsubscribe w s st run :
  reachable w -> stores w !! s = Some st ->
  exists u w1 w2 st2,
    subscribe s run w = Ok (u, w1) /\
    unsubscribe u w1 = Ok (tt, w2) /\
    stores w2 !! s = Some st2 /\
    st_subscribers st2 = st_subscribers st /\
    st_stop st2 = st_stop st /\
    st_value st2 = st_value st /\
    (forall s', s' <> s -> stores w2 !! s' = stores w !! s') /\
    received w2 = received w ++ heard (Some s) run (st_value st) /\
    listeners w2 = listeners w ++
      match st_subscribers st, registration_of s (st_start st) with
      | [], Some r => [ {| l_registration := r; l_active := false |} ]
      | _, _ => []
      end.
Proof.
  intros Hr Hs. pose proof (reachable_wf _ Hr) as Hwf.
  assert (Hfresh : forall p, p ∈ st_subscribers st -> p.1 < st_fresh st).
  { intros p. by apply (reachable_ids_fresh _ Hr s). }
  destruct (wf_stores _ Hwf _ _ Hs) as [Ha Hb].
  assert (Hlt : s < length (stores w)) by by eapply lookup_lt_Some.
  assert (Hrem : remaining (st_fresh st)
            (subscribed s run (length (listeners w)) st) = st_subscribers st).
  { unfold remaining. simpl. rewrite filter_app, filter_fresh by done.
    rewrite filter_cons_False by (simpl; intros H; by apply H).
    by rewrite filter_nil, app_nil_r. }
  eexists _, _, _, _. split; [by apply subscribe_eq|]. split.
  { apply unsubscribe_eq.
    - rewrite (proj1 (proj2 (proj2 (proj2 (called_fields _ _ _ _))))). simpl.
      by apply list_lookup_insert_eq.
    - simpl. unfold first_stop.
      destruct (st_subscribers st) eqn:Hsubs.
      + destruct (registration_of s (st_start st)); [eauto|by intros [=]].
      + by eapply wf_unsubscribe_defined. }
  simpl. rewrite (proj1 (proj2 (proj2 (proj2 (called_fields _ _ _ _))))).
  rewrite (proj2 (proj2 (proj2 (proj2 (called_fields _ _ _ _))))).
  rewrite received_called. simpl. rewrite list_insert_insert_eq.
  split; [by apply list_lookup_insert_eq|]. simpl. rewrite Hrem.
  split; [done|]. split.
  { destruct (st_subscribers st) eqn:Hsubs; [|done].
    symmetry. by apply Ha. }
  split; [done|]. split.
  { intros s' Hne. by rewrite list_lookup_insert_ne. }
  split; [done|].
  unfold cancelled. rewrite Hrem. unfold registered, first_stop. simpl.
  destruct (st_subscribers st) eqn:Hsubs; [|by rewrite app_nil_r].
  destruct (registration_of s (st_start st)) as [r|] eqn:Hreg;
    unfold first_stop; rewrite Hreg; simpl; [|done].
  rewrite alter_app_r_alt by done. by rewrite Nat.sub_diag.
Qed.

(** ** More on snapshots *)

(** A step that is not the delivery of a snapshot keeps the value of
    every store. *)
Lemma effect_value w a w' s st :
  effect w a w' -> stores w !! s = Some st ->
  (forall l snapshot, a <> DeliverDoc l snapshot) ->
  (forall l snapshot, a <> DeliverQuery l snapshot) ->
  exists st', stores w' !! s = Some st' /\ st_value st' = st_value st.
Proof.
  intros He Hst Hd Hq.
  assert (Hlt : s < length (stores w)) by by eapply lookup_lt_Some.
  destruct He as [a s' v' n w' H| |cb v'|s' run st1 Hs|s' id st1 Hs
                 |l docRef s' st1 snap Hl Hs Hstart _
                 |l colRef s' st1 snap Hl Hs Hstart _|];
    simpl; eauto.
  - destruct H as (_ & -> & _). exists st. split; [|done].
    by apply lookup_app_l_Some.
  - rewrite (proj1 (proj2 (proj2 (proj2 (called_fields _ _ _ _))))). eauto.
  - rewrite (proj1 (proj2 (proj2 (proj2 (called_fields _ _ _ _))))). simpl.
    destruct (decide (s' = s)) as [->|].
    + simplify_eq. eexists. split; [by apply list_lookup_insert_eq|]. done.
    + exists st. by rewrite list_lookup_insert_ne.
  - destruct (decide (s' = s)) as [->|].
    + simplify_eq. eexists. split; [by apply list_lookup_insert_eq|]. done.
    + exists st. by rewrite list_lookup_insert_ne.
  - by destruct (Hd l snap).
  - by destruct (Hq l snap).
Qed.

Lemma run_value acts w w' s st :
  wf w -> stores w !! s = Some st -> run acts w = Ok (tt, w') ->
  (forall l snapshot, DeliverDoc l snapshot ∉ acts) ->
  (forall l snapshot, DeliverQuery l snapshot ∉ acts) ->
  exists st', stores w' !! s = Some st' /\ st_value st' = st_value st.
Proof.
  revert w st. induction acts as [|a acts IH]; intros w st Hwf Hs.
  - intros [= <-] _ _. eauto.
  - intros ([] & w1 & H1 & H2)%bind_Ok Hd Hq.
    destruct (effect_value w a w1 s st) as (st1 & Hs1 & Hv1);
      [by apply step_effect|done| | |].
    { intros l snap ->. apply (Hd l snap). by left. }
    { intros l snap ->. apply (Hq l snap). by left. }
    destruct (IH w1 st1) as (st' & Hs' & Hv'); [by eapply wf_step|done|done| | |].
    { intros l snap Hin. apply (Hd l snap). by right. }
    { intros l snap Hin. apply (Hq l snap). by right. }
    exists st'. split; [done|congruence].
Qed.

(** X7. Between snapshots the value of a store does not change, whoever
    subscribes or leaves and whatever happens to other stores: after
    the store was stopped and started again a subscriber is called at once with
    the value of the last snapshot (with [startWith] before the first),
    not with a fresh one. *)
Theorem value_between_snapshots w s st acts w' :
  reachable w -> stores w !! s = Some st ->
  run acts w = Ok (tt, w') ->
  (forall l snapshot, DeliverDoc l snapshot ∉ acts) ->
  (forall l snapshot, DeliverQuery l snapshot ∉ acts) ->
  exists st',
    stores w' !! s = Some st' /\
    st_value st' = st_value st /\
    forall o, exists u w'',
      subscribe s (Observer o) w' = Ok (u, w'') /\
      received w'' = received w' ++
        [ {| em_store := Some s; em_observer := o; em_value := st_value st |} ].
Proof.
  intros Hwf%reachable_wf Hs Hrun Hd Hq.
  destruct (run_value acts w w' s st) as (st' & Hs' & Hv); try done.
  exists st'. split; [done|]. split; [done|]. intros o.
  eexists _, _. split; [by apply subscribe_eq|].
  rewrite received_called. simpl. by rewrite Hv.
Qed.

Lemma emitted_app s w (new : list emission) (l : list emission) :
  received w = l ++ new ->
  emitted s w = (em_value <$> filter (fun e => em_store e = Some s) l) ++
                (em_value <$> filter (fun e => em_store e = Some s) new).
Proof. intros H. unfold emitted. by rewrite H, filter_app, fmap_app. Qed.

Lemma filter_other_store s s' v st :
  s' <> s -> filter (fun e => em_store e = Some s) (announced s' v st) = [].
Proof.
  intros Hne. apply elem_of_nil_inv. intros e.
  intros [Ht [Ht' _]%announced_tag]%list_elem_of_filter. congruence.
Qed.

(** X8. A snapshot reaches one store: its delivery changes no other store,
    calls no subscriber of another store and leaves the listeners as they
    are; delivered to a listener that is cancelled, or was never
    registered, it changes nothing at all. *)
Theorem snapshot_reaches_one_store w l :
  reachable w ->
  (forall snapshot w', deliver_doc l snapshot w = Ok (tt, w') ->
     listeners w' = listeners w /\
     forall s,
       (forall r, listeners w !! l =
                    Some {| l_registration := r; l_active := true |} ->
                  target r <> s) ->
       stores w' !! s = stores w !! s /\ emitted s w' = emitted s w) /\
  (forall snapshot w', deliver_query l snapshot w = Ok (tt, w') ->
     listeners w' = listeners w /\
     forall s,
       (forall r, listeners w !! l =
                    Some {| l_registration := r; l_active := true |} ->
                  target r <> s) ->
       stores w' !! s = stores w !! s /\ emitted s w' = emitted s w) /\
  ((forall r, listeners w !! l <>
                Some {| l_registration := r; l_active := true |}) ->
   forall d q, deliver_doc l d w = Ok (tt, w) /\ deliver_query l q w = Ok (tt, w)).
Proof.
  intros Hwf%reachable_wf.
  assert (Hset : forall s0 v st0 r w',
    listeners w !! l = Some {| l_registration := r; l_active := true |} ->
    target r = s0 -> stores w !! s0 = Some st0 ->
    set_to s0 v st0 w = w' ->
    listeners w' = listeners w /\
    forall s,
      (forall r, listeners w !! l =
                   Some {| l_registration := r; l_active := true |} ->
                 target r <> s) ->
      stores w' !! s = stores w !! s /\ emitted s w' = emitted s w).
  { intros s0 v st0 r w' Hl Ht Hs0 <-. split; [apply listeners_set_to|].
    intros s Hne. specialize (Hne r Hl). rewrite Ht in Hne. split.
    - rewrite stores_set_to by done. by apply list_lookup_insert_ne.
    - rewrite (emitted_app s _ _ _ (received_set_to s0 v st0 w)).
      rewrite filter_other_store by done. by rewrite app_nil_r. }
  split; [|split].
  - intros snapshot w'. unfold deliver_doc.
    destruct (listeners w !! l) as [[[docRef s0|colRef s0] []]|] eqn:Hl;
      try (intros [= <-]; by split).
    destruct (wf_listeners _ Hwf _ _ Hl) as (st0 & Hs0 & _). simpl in Hs0.
    unfold doc_callback. rewrite (store_set_eq _ _ _ _ Hs0). intros [= H].
    by eapply (Hset s0 _ st0 (OnDoc docRef s0)).
  - intros snapshot w'. unfold deliver_query.
    destruct (listeners w !! l) as [[[docRef s0|colRef s0] []]|] eqn:Hl;
      try (intros [= <-]; by split).
    destruct (wf_listeners _ Hwf _ _ Hl) as (st0 & Hs0 & _). simpl in Hs0.
    unfold collection_callback. rewrite (store_set_eq _ _ _ _ Hs0). intros [= H].
    by eapply (Hset s0 _ st0 (OnQuery colRef s0)).
  - intros Hno d q. unfold deliver_doc, deliver_query.
    destruct (listeners w !! l) as [[r []]|] eqn:Hl; try done.
    + by destruct (Hno r).
    + by destruct r.
Qed.

(** ** More on the reads *)

Lemma insert_last {A} (l : list A) (x y : A) :
  <[length l := y]> (l ++ [x]) = l ++ [y].
Proof.
  replace (length l) with (length l + 0) at 1 by lia.
  by rewrite insert_app_r.
Qed.



(** X10. Where there is a context object, the stores of firestore.ts are
    those of the variant called with the Firestore instance of that
    object, but for the default of [collectionStore]: called without
    [startWith], or with undefined, it is the variant called with the
    empty array, so that without window and in the live branch the store
    starts from the empty array where that of the variant starts from
    undefined. *)
Theorem variants_agree (firestore : option Firestore) ref ref' startWith w :
  context w = firestore ->
  docStore ref startWith w = Explicit.docStore firestore ref startWith w /\
  (startWith <> VUndefined ->
   collectionStore ref' startWith w =
     Explicit.collectionStore firestore ref' startWith w) /\
  collectionStore ref' VUndefined w =
    Explicit.collectionStore firestore ref' (VArr []) w /\
  (forall d w1 d' w1',
     window w = false \/ is_Some firestore ->
     collectionStore ref' VUndefined w = Ok (d, w1) ->
     Explicit.collectionStore firestore ref' VUndefined w = Ok (d', w1') ->
     st_value <$> stores w1 !! col_subscribe d = Some (VArr []) /\
     st_value <$> stores w1' !! col_subscribe d' = Some VUndefined).
Proof.
  intros Hctx. split; [by apply docStore_explicit|]. split.
  { intros Hne. rewrite (collectionStore_explicit _ _ _ _ Hctx).
    by destruct startWith. }
  split; [by rewrite (collectionStore_explicit _ _ _ _ Hctx)|].
  intros d w1 d' w1' Hbranch. rewrite (collectionStore_explicit _ _ _ _ Hctx).
  simpl.
  assert (Hv : forall sw c w2,
    Explicit.collectionStore firestore ref' sw w = Ok (c, w2) ->
    st_value <$> stores w2 !! col_subscribe c = Some sw).
  { intros sw c w2 Hc. destruct (window w) eqn:Hw.
    - destruct Hbranch as [|[f Hf]]; [done|]. rewrite Hf in Hc.
      destruct (created_live_collection _ _ _ _ _ _ Hw Hc) as (r & _ & H).
      by rewrite (created_lookup _ _ _ _ _ H).
    - rewrite collectionStore_ssr in Hc by done. injection Hc as <- <-. simpl.
      by rewrite lookup_app_r, Nat.sub_diag. }
  intros H1 H2. split; by apply Hv.
Qed.

(** ** More on the derived store *)

(** The callback of [userDataStore], given a user. *)
Lemma userData_callback {U : Type} (userStore : M U) collectionPath w d w1 user set w2 :
  userDataStore userStore collectionPath w = Ok (d, w1) ->
  derived_fn d (Some user) set w2 =
    match docStore (inl (default "users" collectionPath +:+ "/" +:+ uid user))
            VUndefined w2 with
    | Ok (store, w3) =>
        match subscribe (doc_subscribe store) set w3 with
        | Ok (unsubscriber, w4) => Ok (Some unsubscriber, w4)
        | Throw e => Throw e
        end
    | Throw e => Throw e
    end.
Proof. by intros (u & w0 & _ & [= <- _])%bind_Ok. Qed.

(** Subscribing to the store that was just made. *)
Lemma subscribe_created s v n w w1 run :
  created s v n w w1 ->
  subscribe s run w1 =
    Ok ((s, 0),
        called (Some s) run v
          (set_stores (stores w ++ [subscribed s run (length (listeners w))
                                      (fresh_store v n)])
             (set_listeners (listeners w ++ registered s (fresh_store v n)) w1))).
Proof.
  intros Hc. rewrite (subscribe_eq _ _ _ _ (created_lookup _ _ _ _ _ Hc)).
  destruct Hc as (-> & -> & -> & _). simpl. by rewrite insert_last.
Qed.

(** X11. Given a user, the callback of [userDataStore] throws what
    reading the Firebase context throws; with a context object, it calls
    [set] with undefined and registers nothing when there is no window,
    warns and calls [set] with null when there is a window and no
    Firestore instance, and throws, with the error of the SDK, when [doc]
    rejects the path. *)
Theorem userDataStore_fallbacks {U : Type} (userStore : M U)
    collectionPath w d w1 user set w2 :
  userDataStore userStore collectionPath w = Ok (d, w1) ->
  let fullPath := default "users" collectionPath +:+ "/" +:+ uid user in
  (forall e, context w2 = NoContext e ->
     derived_fn d (Some user) set w2 = Throw e) /\
  (forall firestore : option Firestore,
     context w2 = firestore -> window w2 = false ->
     derived_fn d (Some user) set w2 =
       Ok (Some (length (stores w2), 0),
           called (Some (length (stores w2))) set VUndefined
             (set_stores
                (stores w2 ++
                   [ {| st_value := VUndefined; st_subscribers := [(0, set)];
                        st_fresh := 1; st_stop := Some StopNoop;
                        st_start := noop; st_unsubscribe := None |} ]) w2))) /\
  (window w2 = true -> context w2 = None ->
   derived_fn d (Some user) set w2 =
     Ok (Some (length (stores w2), 0),
         called (Some (length (stores w2))) set VNull
           (set_stores
              (stores w2 ++
                 [ {| st_value := VNull; st_subscribers := [(0, set)];
                      st_fresh := 1; st_stop := Some StopNoop;
                      st_start := noop; st_unsubscribe := None |} ])
              (set_console (console w2 ++ [not_initialized]) w2)))) /\
  (forall firestore e,
     window w2 = true -> context w2 = Some firestore ->
     doc firestore fullPath = Throw e ->
     derived_fn d (Some user) set w2 = Throw e).
Proof.
  intros Hd fullPath. rewrite (userData_callback _ _ _ _ _ _ _ _ Hd).
  fold fullPath. split; [|split; [|split]].
  - intros e Hc. by rewrite (docStore_no_context e).
  - intros firestore Hc Hw.
    rewrite (docStore_explicit _ _ _ _ Hc), docStore_ssr by done.
    erewrite subscribe_created by done. apply ok_eq; [done|]. f_equal.
    apply world_eq; simpl; by rewrite ?app_nil_r.
  - intros Hw Hc. rewrite (docStore_explicit _ _ _ _ Hc), docStore_missing by done.
    erewrite subscribe_created by done. apply ok_eq; [done|]. f_equal.
    apply world_eq; simpl; by rewrite ?app_nil_r.
  - intros firestore e Hw Hc Hdoc.
    by rewrite (docStore_explicit _ _ _ _ Hc), docStore_path, Hdoc.
Qed.

(** X12. When the user changes, and [derived] has called the clean-up
    function of the first user before it calls the callback for the
    second, the listener of the first user's document is cancelled and
    that of the second is the only one the two calls leave registered;
    when the user signs out, none is. *)
Theorem userDataStore_user_changes {U : Type} (userStore : M U)
    collectionPath w d w1 user user' set firestore docRef docRef' w2 :
  userDataStore userStore collectionPath w = Ok (d, w1) ->
  window w2 = true -> context w2 = Some firestore ->
  doc firestore (default "users" collectionPath +:+ "/" +:+ uid user) = Ok docRef ->
  doc firestore (default "users" collectionPath +:+ "/" +:+ uid user') = Ok docRef' ->
  let s := length (stores w2) in
  exists w3 w4 w5,
    derived_fn d (Some user) set w2 = Ok (Some (s, 0), w3) /\
    unsubscribe (s, 0) w3 = Ok (tt, w4) /\
    listeners w4 = listeners w2 ++
      [ {| l_registration := OnDoc docRef s; l_active := false |} ] /\
    derived_fn d (Some user') set w4 = Ok (Some (S s, 0), w5) /\
    listeners w5 = listeners w2 ++
      [ {| l_registration := OnDoc docRef s; l_active := false |};
        {| l_registration := OnDoc docRef' (S s); l_active := true |} ] /\
    derived_fn d None set w4 = Ok (None, called None set VNull w4).
Proof.
  intros Hd Hw Hc Hdoc Hdoc' s.
  assert (Hlive : forall u r w0,
    window w0 = true -> context w0 = Some firestore ->
    doc firestore (default "users" collectionPath +:+ "/" +:+ uid u) = Ok r ->
    derived_fn d (Some u) set w0 =
      Ok (Some (length (stores w0), 0),
          called (Some (length (stores w0))) set VUndefined
            (set_stores
               (stores w0 ++
                  [ {| st_value := VUndefined; st_subscribers := [(0, set)];
                       st_fresh := 1; st_stop := Some StopUnsubscribe;
                       st_start := DocStart r;
                       st_unsubscribe := Some (length (listeners w0)) |} ])
               (set_listeners
                  (listeners w0 ++
                     [ {| l_registration := OnDoc r (length (stores w0));
                          l_active := true |} ]) w0)))).
  { intros u r w0 Hw0 Hc0 Hr. rewrite (userData_callback _ _ _ _ _ _ _ _ Hd).
    rewrite (docStore_explicit _ _ _ _ Hc0), docStore_path, Hr by done.
    erewrite subscribe_created by done. apply ok_eq; [done|]. f_equal. }
  eexists _, _, _. split; [by apply Hlive|]. split.
  { apply unsubscribe_eq.
    - rewrite (proj1 (proj2 (proj2 (proj2 (called_fields _ _ _ _))))). simpl.
      by rewrite lookup_app_r, Nat.sub_diag.
    - simpl. eauto. }
  simpl. rewrite (proj2 (proj2 (proj2 (proj2 (called_fields _ _ _ _))))). simpl.
  unfold cancelled, remaining. simpl.
  rewrite alter_app_r_alt, Nat.sub_diag by done. simpl.
  split; [done|]. split.
  { rewrite (Hlive user' docRef'); simpl.
    - rewrite length_insert.
      rewrite (proj1 (proj2 (proj2 (proj2 (called_fields _ _ _ _))))). simpl.
      rewrite length_app. simpl. replace (length (stores w2) + 1) with (S s) by (unfold s; lia).
      done.
    - by rewrite (proj1 (called_fields _ _ _ _)).
    - by rewrite (proj1 (proj2 (called_fields _ _ _ _))).
    - done. }
  split.
  { rewrite (proj2 (proj2 (proj2 (proj2 (called_fields _ _ _ _))))). simpl.
    by rewrite <- app_assoc. }
  by apply bind_Ok in Hd as (u & w0 & _ & [= <- _]).
Qed.

End Theory.

(** * The module on the small SDK *)

#[local] Existing Instance path_sdk.

Lemma reachable_browser : reachable browser.
Proof. apply reachable_initial. by repeat split. Qed.

Lemma reachable_server : reachable server.
Proof. apply reachable_initial. by repeat split. Qed.

Lemma reachable_no_app : reachable no_app.
Proof. apply reachable_initial. by repeat split. Qed.

Lemma reachable_listening : reachable listening.
Proof.
  apply (reachable_run
    [ CallDocStore (inl "users/1") VUndefined; Subscribe 0 (Observer 7) ] browser);
    [apply reachable_browser|]. by vm_compute.
Qed.

Lemma reachable_listening_collection : reachable listening_collection.
Proof.
  apply (reachable_run
    [ CallCollectionStore (inl "users") VUndefined; Subscribe 0 (Observer 7) ] browser);
    [apply reachable_browser|]. by vm_compute.
Qed.

Lemma ssr_fallback_witness :
  reachable server /\ window server = false /\ context server = Some app /\
  (exists w',
     docStore (inl "users/1") (VNum 5) server =
       Ok ({| doc_subscribe := 0; doc_ref := None; doc_id := "" |}, w') /\
     listeners w' = [] /\
     fallback 0 (VNum 5) w') /\
  (exists w',
     collectionStore (inl "users") VUndefined server =
       Ok ({| col_subscribe := 0; col_ref := None |}, w') /\
     listeners w' = [] /\
     fallback 0 (VArr []) w').
Proof.
  split; [apply reachable_server|]. split; [reflexivity|].
  split; [reflexivity|]. split.
  - destruct (@ssr_fallback path_sdk server (VNum 5) reachable_server eq_refl)
      as (_ & H & _).
    exact (H (Some app) (inl "users/1") eq_refl).
  - destruct (@ssr_fallback path_sdk server VUndefined reachable_server eq_refl)
      as (_ & _ & _ & H).
    destruct (H (Some app) (inl "users") eq_refl) as (w' & H1 & H2 & H3 & _).
    exists w'. split; [exact H1|]. split; [exact H2|]. exact (H3 eq_refl).
Defined.

Lemma missing_sdk_fallback_witness :
  reachable no_app /\ window no_app = true /\
  exists w',
    Explicit.docStore None (inl "users/1") (VNum 5) no_app =
      Ok ({| doc_subscribe := 0; doc_ref := None; doc_id := "" |}, w') /\
    (context no_app = None ->
     docStore (inl "users/1") (VNum 5) no_app =
      Ok ({| doc_subscribe := 0; doc_ref := None; doc_id := "" |}, w')) /\
    console w' = [not_initialized] /\
    listeners w' = [] /\
    fallback 0 VNull w'.
Proof.
  split; [apply reachable_no_app|]. split; [reflexivity|].
  destruct (@missing_sdk_fallback path_sdk no_app (VNum 5) reachable_no_app eq_refl)
    as (H & _).
  exact (H (inl "users/1")).
Defined.

Lemma path_resolution_witness :
  window browser = true /\ context browser = Some app /\
  exists d w',
    docStore (inr user1) VUndefined browser = Ok (d, w') /\
    Explicit.docStore (Some app) (inr user1) VUndefined browser = Ok (d, w') /\
    doc_ref d = Some user1.
Proof.
  split; [reflexivity|]. split; [reflexivity|].
  destruct (@path_resolution path_sdk app VUndefined browser eq_refl eq_refl)
    as (_ & H & _).
  exact (H user1).
Defined.

Lemma snapshot_mapping_witness :
  reachable listening /\
  listeners listening !! 0 =
    Some {| l_registration := OnDoc user1 0; l_active := true |} /\
  exists w' st',
    deliver_doc 0 {| ds_data := VUndefined |} listening = Ok (tt, w') /\
    stores w' !! 0 = Some st' /\
    st_start st' = DocStart user1 /\
    (@VUndefined path_sdk = VUndefined -> st_value st' = VNull) /\
    (@VUndefined path_sdk <> VUndefined -> st_value st' = VUndefined).
Proof.
  split; [apply reachable_listening|]. split; [reflexivity|].
  destruct (@snapshot_mapping path_sdk listening 0 0 reachable_listening)
    as (_ & H).
  exact (H user1 {| ds_data := VUndefined |} eq_refl).
Defined.

Lemma forwarding_witness :
  reachable listening_collection /\
  listeners listening_collection !! 0 =
    Some {| l_registration := OnQuery users 0; l_active := true |} /\
  (exists w' items props,
     deliver_query 0 {| docs := [ann] |} listening_collection = Ok (tt, w') /\
     received w' = received listening_collection ++
       [ {| em_store := Some 0; em_observer := 7; em_value := VArr items |} ] /\
     length items = 1 /\
     items !! 0 = Some (VObj props) /\
     props !! "id" = Some (VStr "1") /\
     props !! "ref" = Some (VRef user1) /\
     props !! "name" = Some (VStr "Ann")) /\
  reachable listening /\
  listeners listening !! 0 =
    Some {| l_registration := OnDoc user1 0; l_active := true |} /\
  (exists w',
     deliver_doc 0 {| ds_data := VUndefined |} listening = Ok (tt, w') /\
     received w' = received listening ++
       [ {| em_store := Some 0; em_observer := 7; em_value := VNull |} ]).
Proof.
  split; [apply reachable_listening_collection|]. split; [reflexivity|].
  split.
  { destruct (@forwarding path_sdk listening_collection 0 0
                reachable_listening_collection) as (_ & H).
    destruct (H users {| docs := [ann] |} eq_refl)
      as (st & w' & items & Hs & Hd & Hrec & Hlen & Hitems).
    destruct (Hitems 0 ann eq_refl) as (props & Hi & Hk).
    injection Hs as <-.
    exists w', items, props. split; [exact Hd|]. split; [exact Hrec|].
    split; [exact Hlen|]. split; [exact Hi|].
    split; [exact (Hk "id")|]. split; [exact (Hk "ref")|exact (Hk "name")]. }
  split; [apply reachable_listening|]. split; [reflexivity|].
  destruct (@forwarding path_sdk listening 0 0 reachable_listening) as (H & _).
  destruct (H user1 {| ds_data := VUndefined |} eq_refl)
    as (st & w' & v & Hs & Hd & Hv & _ & _ & Hrec).
  injection Hs as <-. rewrite (Hv eq_refl) in Hrec.
  exists w'. split; [exact Hd|]. apply Hrec. left. discriminate.
Defined.

(** C5, as it is stated, fails: for a snapshot of a document that does
    not exist [snapshot.data()] is undefined and the subscriber of the
    [docStore] is called with null; for a snapshot with the document
    [{ name: "Ann" }] the subscriber of the [collectionStore] is called
    with [[{ id: "1", ref, name: "Ann" }]], which is not the array of the
    data. *)
Lemma forwarding_counterexample :
  emitted 0 <$>
    final [ CallDocStore (inl "users/1") VUndefined;
            Subscribe 0 (Observer 7);
            DeliverDoc 0 {| ds_data := VUndefined |} ] browser
    = Some [VUndefined; VNull] /\
  @VNull path_sdk <> VUndefined /\
  emitted 0 <$>
    final [ CallCollectionStore (inl "users") VUndefined;
            Subscribe 0 (Observer 7);
            DeliverQuery 0 {| docs := [ann] |} ] browser
    = Some [VArr [];
            VArr [VObj {[ "id" := VStr "1"; "ref" := VRef user1;
                          "name" := VStr "Ann" ]}]] /\
  VArr [VObj {[ "id" := VStr "1"; "ref" := VRef user1; "name" := VStr "Ann" ]}]
    <> VArr [VObj (qds_data ann)].
Proof.
  split; [by vm_compute|]. split; [done|]. split; [by vm_compute|].
  intros [= H]. 
Qed.


Lemma teardown_witness :
  reachable listening /\
  exists w',
    unsubscribe (0, 0) listening = Ok (tt, w') /\
    listeners w' !! 0 =
      Some {| l_registration := OnDoc user1 0; l_active := false |}.
Proof.
  split; [apply reachable_listening|].
  destruct (@teardown path_sdk listening 0
              {| st_value := VUndefined; st_subscribers := [(0, Observer 7)];
                 st_fresh := 1; st_stop := Some StopUnsubscribe;
                 st_start := DocStart user1; st_unsubscribe := Some 0 |}
              (OnDoc user1 0) reachable_listening eq_refl eq_refl)
    as (l & Hun & _ & _ & H); [discriminate|].
  injection Hun as <-.
  destruct (H 0) as (w' & st' & Hu & _ & _ & _ & Hl).
  exists w'. split; [exact Hu|]. exact (proj1 (proj2 (Hl eq_refl))).
Defined.

Lemma userDataStore_composition_witness :
  ret tt browser = Ok (tt, browser) /\
  exists d,
    userDataStore (ret tt) None browser = Ok (d, browser) /\
    derived_from d = tt /\
    (forall set w2, derived_fn d None set w2 = Ok (None, called None set VNull w2)) /\
    exists w3,
      derived_fn d (Some {| uid := "1" |}) (Observer 7) browser =
        Ok (Some (0, 0), w3) /\
      listeners w3 =
        [ {| l_registration := OnDoc user1 0; l_active := true |} ].
Proof.
  split; [reflexivity|].
  destruct (@userDataStore_composition path_sdk unit (ret tt) None browser tt
              browser eq_refl) as (d & Hd & Hfrom & Hnone & Huser).
  exists d. split; [exact Hd|]. split; [exact Hfrom|]. split; [exact Hnone|].
  destruct (Huser {| uid := "1" |}) as (_ & Hlive).
  destruct (Hlive (Observer 7) app user1 browser reachable_browser
              eq_refl eq_refl eq_refl)
    as (w3 & st & Hfn & _ & _ & _ & _ & _ & Hl & _).
  exists w3. split; [exact Hfn|exact Hl].
Defined.

Lemma startWith_discarded_witness :
  reachable no_app /\ reachable server /\
  window no_app = true /\ window server = false /\
  exists d w' d' w'',
    Explicit.docStore None (inl "users/1") (VNum 5) no_app = Ok (d, w') /\
    Explicit.docStore None (inl "users/1") (VNum 5) server = Ok (d', w'') /\
    st_value <$> stores w' !! doc_subscribe d = Some VNull /\
    st_value <$> stores w'' !! doc_subscribe d' = Some (VNum 5).
Proof.
  split; [apply reachable_no_app|]. split; [apply reachable_server|].
  split; [reflexivity|]. split; [reflexivity|].
  destruct (@startWith_discarded path_sdk no_app server (inl "users/1") (VNum 5)
              reachable_no_app reachable_server eq_refl eq_refl)
    as (d & w' & d' & w'' & H1 & _ & H2 & _ & H3 & H4 & _).
  exists d, w', d', w''. repeat split; assumption.
Defined.

Lemma one_shot_read_witness :
  window browser = true /\
  exists w' st,
    Explicit.getDocValue (Some app) (inl "users/1") (VNum 5) browser =
      Ok (VNum 5, w') /\
    cells w' = [VNum 5] /\
    stores w' !! 0 = Some st /\
    st_subscribers st = [] /\ st_start st = DocStart user1 /\
    listeners w' =
      [ {| l_registration := OnDoc user1 0; l_active := false |} ] /\
    forall snapshot, deliver_doc 0 snapshot w' = Ok (tt, w').
Proof.
  split; [reflexivity|].
  destruct (@one_shot_read path_sdk app (VNum 5) browser eq_refl) as (H & _).
  exact (H (inl "users/1") user1 eq_refl).
Defined.

Lemma constructors_throw_with_sdk_witness :
  docStore (inl "") VUndefined browser = Throw (FirebaseError "invalid-argument") /\
  collectionStore (inl "users") VUndefined no_context =
    Throw (TypeError "Cannot destructure property 'firestore'").
Proof.
  split.
  - apply (proj1 (proj2 (@constructors_throw_with_sdk path_sdk (Some app) VUndefined
                           browser (FirebaseError "invalid-argument")))).
    right. split; [reflexivity|]. exists app, "". repeat split; reflexivity.
  - apply (proj2 (proj2 (proj2 (@constructors_throw_with_sdk path_sdk None VUndefined
                           no_context
                           (TypeError "Cannot destructure property 'firestore'"))))).
    left. reflexivity.
Defined.

Lemma store_ref_and_id_witness :
  exists d w',
    Explicit.docStore (Some app) (inr user1) VUndefined browser = Ok (d, w') /\
    doc_id d = match doc_ref d with
               | Some docRef => ref_id docRef
               | None => ""
               end /\
    (doc_ref d = None <-> window browser = false \/ Some app = None).
Proof.
  eexists _, _. split; [reflexivity|].
  apply (proj1 (@store_ref_and_id path_sdk (Some app) VUndefined browser)
           (inr user1) _ _ eq_refl).
Defined.

Lemma warning_only_with_window_witness :
  exists d w',
    Explicit.docStore None (inr user1) VUndefined no_app = Ok (d, w') /\
    console w' = [not_initialized].
Proof.
  eexists _, _. split; [reflexivity|].
  apply (proj1 (@warning_only_with_window path_sdk None VUndefined no_app)
           (inr user1) _ _ eq_refl).
Defined.

Lemma listener_while_subscribed_witness :
  reachable listening /\
  exists st, stores listening !! 0 = Some st /\
    ((exists l li, listeners listening !! l = Some li /\ l_active li = true /\
        target (l_registration li) = 0) <->
     st_subscribers st <> [] /\ st_start st <> noop).
Proof.
  split; [apply reachable_listening|]. eexists. split; [reflexivity|].
  apply (@listener_while_subscribed path_sdk listening 0 _ reachable_listening
           eq_refl).
Defined.

Lemma unsubscriber_twice_witness :
  reachable listening /\
  exists w' st',
    unsubscribe (0, 0) listening = Ok (tt, w') /\
    unsubscribe (0, 0) w' = Ok (tt, w') /\
    stores w' !! 0 = Some st' /\
    (forall run, (0, run) ∉ st_subscribers st') /\
    (st_subscribers st' = [] -> st_stop st' = None).
Proof.
  split; [apply reachable_listening|]. eexists _, _.
  split; [vm_compute; reflexivity|].
  destruct (@unsubscriber_twice path_sdk listening (0, 0) _ reachable_listening
              ltac:(vm_compute; reflexivity)) as [H1 H2].
  split; [exact H1|]. split; [vm_compute; reflexivity|].
  apply (H2 _ ltac:(vm_compute; reflexivity)).
Defined.

Lemma subscribe_then_unsubscribe_witness :
  reachable listening /\
  exists st, stores listening !! 0 = Some st /\
  exists u w1 w2 st2,
    subscribe 0 (Observer 8) listening = Ok (u, w1) /\
    unsubscribe u w1 = Ok (tt, w2) /\
    stores w2 !! 0 = Some st2 /\
    st_subscribers st2 = st_subscribers st /\
    listeners w2 = listeners listening.
Proof.
  split; [apply reachable_listening|]. eexists. split; [reflexivity|].
  destruct (@subscribe_then_unsubscribe path_sdk listening 0 _ (Observer 8)
              reachable_listening eq_refl)
    as (u & w1 & w2 & st2 & H1 & H2 & H3 & H4 & _ & _ & _ & _ & H5).
  exists u, w1, w2, st2. repeat split; try assumption.
Defined.

Lemma value_between_snapshots_witness :
  reachable listening /\
  exists w' st',
    run [ Unsubscribe (0, 0) ] listening = Ok (tt, w') /\
    stores w' !! 0 = Some st' /\
    st_value st' = VUndefined.
Proof.
  split; [apply reachable_listening|].
  destruct (@value_between_snapshots path_sdk listening 0 _ [ Unsubscribe (0, 0) ] _
              reachable_listening eq_refl ltac:(vm_compute; reflexivity))
    as (st' & Hs & Hv & _).
  - intros l snapshot H. apply list_elem_of_singleton in H. discriminate.
  - intros l snapshot H. apply list_elem_of_singleton in H. discriminate.
  - eexists _, st'. split; [vm_compute; reflexivity|]. split; [exact Hs|exact Hv].
Defined.

Lemma snapshot_reaches_one_store_witness :
  reachable listening /\
  exists w',
    deliver_doc 0 {| ds_data := VNum 1 |} listening = Ok (tt, w') /\
    listeners w' = listeners listening.
Proof.
  split; [apply reachable_listening|]. eexists.
  split; [vm_compute; reflexivity|].
  apply (proj1 (@snapshot_reaches_one_store path_sdk listening 0
                  reachable_listening) {| ds_data := VNum 1 |} _).
  vm_compute; reflexivity.
Defined.

Lemma variants_agree_witness :
  context server = Some app /\
  docStore (inl "users/1") (VNum 5) server =
    Explicit.docStore (Some app) (inl "users/1") (VNum 5) server /\
  collectionStore (inl "users") VUndefined server =
    Explicit.collectionStore (Some app) (inl "users") (VArr []) server.
Proof.
  split; [reflexivity|].
  destruct (@variants_agree path_sdk (Some app) (inl "users/1") (inl "users")
              (VNum 5) server eq_refl) as (H1 & _ & H2 & _).
  split; [exact H1|exact H2].
Defined.

Lemma userDataStore_fallbacks_witness :
  context server = Some app /\
  exists d,
    userDataStore (ret tt) None server = Ok (d, server) /\
    exists w3,
      derived_fn d (Some {| uid := "1" |}) (Observer 7) server =
        Ok (Some (0, 0), w3) /\
      listeners w3 = [].
Proof.
  split; [reflexivity|]. eexists. split; [reflexivity|].
  destruct (@userDataStore_fallbacks path_sdk unit (ret tt) None server _ server
              {| uid := "1" |} (Observer 7) server eq_refl) as (_ & H & _).
  eexists. split; [exact (H (Some app) eq_refl eq_refl)|reflexivity].
Defined.

Lemma userDataStore_user_changes_witness :
  exists d,
    userDataStore (ret tt) None browser = Ok (d, browser) /\
    exists w3 w4 w5,
      derived_fn d (Some {| uid := "1" |}) (Observer 7) browser =
        Ok (Some (0, 0), w3) /\
      unsubscribe (0, 0) w3 = Ok (tt, w4) /\
      derived_fn d (Some {| uid := "2" |}) (Observer 7) w4 =
        Ok (Some (1, 0), w5) /\
      listeners w5 =
        [ {| l_registration := OnDoc user1 0; l_active := false |};
          {| l_registration := OnDoc ("users/2" : @DocumentReference path_sdk) 1;
             l_active := true |} ].
Proof.
  eexists. split; [reflexivity|].
  destruct (@userDataStore_user_changes path_sdk unit (ret tt) None browser _
              browser {| uid := "1" |} {| uid := "2" |} (Observer 7) app
              user1 ("users/2" : @DocumentReference path_sdk) browser
              eq_refl eq_refl eq_refl eq_refl eq_refl)
    as (w3 & w4 & w5 & H1 & H2 & _ & H3 & H4 & _).
  exists w3, w4, w5. repeat split; assumption.
Defined.
